(** * utility_fs_train.py: command-line parsing and data-loading utilities

    A shallow embedding of [src/utility_fs_train.py] and of the parts of the
    Python runtime, [argparse], [torchvision] and [torch.utils.data] that its
    functions call, followed by the properties of the functions.

    Conventions.
    - A Python [dict] with string keys is a [gmap string _]; subscripting a
      missing key raises [KeyError].
    - Python exceptions are the constructors of [exn]; a call that can raise
      returns [result A]; [SystemExit] carries the exit status.
    - Strings are byte strings ([string]); tokens are taken to be ASCII.
    - Decimal literals of the source ([0.485], ...) are kept as the exact
      rationals they spell, in lowest-common form [n # 1000]. *)

From Stdlib Require Import QArith Ascii.
From stdpp Require Import gmap strings list fin_maps sorting pretty.


(** ** Python runtime: exceptions *)

Inductive exn :=
  | KeyError (key : string)
  | AttributeError (attr : string)
  | FileNotFoundError (path : string)
  | RuntimeError (msg : string)
  | SystemExit (status : Z).

Inductive result (A : Type) :=
  | Ok (a : A)
  | Raise (e : exn).
Arguments Ok {A} a.
Arguments Raise {A} e.

Global Instance result_ret : MRet result := λ A a, Ok a.
Global Instance result_bind : MBind result := λ A B k m,
  match m with
  | Ok a => k a
  | Raise e => Raise e
  end.

Global Instance result_fmap : FMap result := λ A B f m,
  match m with
  | Ok a => Ok (f a)
  | Raise e => Raise e
  end.

(** [d[k]] on a dict. *)
Definition getitem {V} (d : gmap string V) (k : string) : result V :=
  match d !! k with
  | Some v => Ok v
  | None => Raise (KeyError k)
  end.

(** ** [data_subdirs] (lines 85-99) *)

Definition data_subdirs (data_dir : string) : gmap string string :=
  let subdirs_dict : gmap string string := ∅ in
  let subdirs_dict := <["train" := data_dir +:+ "train/"]> subdirs_dict in
  let subdirs_dict := <["valid" := data_dir +:+ "valid/"]> subdirs_dict in
  let subdirs_dict := <["test" := data_dir +:+ "test/"]> subdirs_dict in
  subdirs_dict.

(** ** [torchvision.transforms]: the steps the source composes

    Each constructor records the arguments the source passes; arguments the
    source leaves out keep the library's defaults and are not recorded. *)

Inductive Transform :=
  | RandomRotation (degrees : Z)
  | RandomResizedCrop (size : Z)
  | RandomHorizontalFlip
  | ToTensor
  | Normalize (mean std : list Q)
  | Resize (size : Z)
  | CenterCrop (size : Z).

(** [transforms.Compose(steps)]: the ordered list of steps. *)
Record Compose := { steps : list Transform }.

(** ** [data_transforms] (lines 102-136) *)

Definition data_transforms : gmap string Compose :=
  let transforms_dict : gmap string Compose := ∅ in
  let transforms_dict := <["train" := {| steps := [
        RandomRotation 30;
        RandomResizedCrop 224;
        RandomHorizontalFlip;
        ToTensor;
        Normalize [0.485; 0.456; 0.406]%Q
                  [0.229; 0.224; 0.225]%Q
      ] |}]> transforms_dict in
  let transforms_dict := <["valid" := {| steps := [
        Resize 256;
        CenterCrop 224;
        ToTensor;
        Normalize [0.485; 0.456; 0.406]%Q
                  [0.229; 0.224; 0.225]%Q
      ] |}]> transforms_dict in
  let transforms_dict := <["test" := {| steps := [
        Resize 256;
        CenterCrop 224;
        ToTensor;
        Normalize [0.485; 0.456; 0.406]%Q
                  [0.229; 0.224; 0.225]%Q
      ] |}]> transforms_dict in
  transforms_dict.

Definition is_random (t : Transform) : bool :=
  match t with
  | RandomRotation _ | RandomResizedCrop _ | RandomHorizontalFlip => true
  | _ => false
  end.

(** ** The file system, as the dataset constructor observes it *)

Record FileSystem := {
  (** [os.scandir(path)]: entry name to [entry.is_dir()]; [None] when
      [path] is not a directory that can be listed. *)
  scandir : string → option (gmap string bool);
  (** The image files that [os.walk] finds below a directory and that have
      one of the image extensions, in the order of the walk. *)
  image_files : string → list string
}.

(** [os.path.join(a, b)] on POSIX. *)
Definition ends_with_slash (a : string) : bool :=
  match String.rev a with
  | String c _ => bool_decide (c = "/"%char)
  | EmptyString => false
  end.

Definition path_join (a b : string) : string :=
  match b with
  | String "/"%char _ => b
  | _ => if bool_decide (a = "") || ends_with_slash a then a +:+ b
         else a +:+ "/" +:+ b
  end.

(** ** Python builtins on lists and dicts *)

Definition enumerate {A} (l : list A) : list (nat * A) :=
  zip (seq 0 (length l)) l.

(** [{k: v for ...}]: items are stored in order, a later one replacing an
    earlier one with the same key. *)
Definition dict_of_items {V} (items : list (string * V)) : gmap string V :=
  foldl (λ d kv, <[kv.1 := kv.2]> d) ∅ items.

(** [sorted(names)] on strings. *)
Definition sorted (names : list string) : list string :=
  merge_sort String.le names.

(** ** [torchvision.datasets.ImageFolder] *)

Record Dataset := {
  root : string;
  transform : Compose;
  classes : list string;
  class_to_idx : gmap string nat;
  samples : list (string * nat)
}.

(** The class folders of a listing: the names of the entries that are
    directories. *)
Definition class_folders (entries : gmap string bool) : gmap string bool :=
  filter (λ kv, kv.2 = true) entries.

(** [find_classes(directory)]. *)
Definition find_classes (fs : FileSystem) (directory : string)
    : result (list string * gmap string nat) :=
  match scandir fs directory with
  | None => Raise (FileNotFoundError directory)
  | Some entries =>
      let classes := sorted ((map_to_list (class_folders entries)).*1) in
      match classes with
      | [] => Raise (FileNotFoundError directory)
      | _ =>
          let class_to_idx :=
            dict_of_items ((λ ic, (ic.2, ic.1)) <$> enumerate classes) in
          Ok (classes, class_to_idx)
      end
  end.

(** [make_dataset(directory, class_to_idx)]: the samples of every class, and
    an error when some class has none. *)
Definition class_samples (fs : FileSystem) (directory : string)
    (class_to_idx : gmap string nat) (target_class : string)
    : list (string * nat) :=
  match class_to_idx !! target_class with
  | Some class_index =>
      (λ path, (path, class_index))
        <$> image_files fs (path_join directory target_class)
  | None => []
  end.

Definition make_dataset (fs : FileSystem) (directory : string)
    (class_to_idx : gmap string nat) : result (list (string * nat)) :=
  let names := sorted ((map_to_list class_to_idx).*1) in
  let empty_classes :=
    filter (λ c, class_samples fs directory class_to_idx c = []) names in
  match empty_classes with
  | [] => Ok (mjoin (class_samples fs directory class_to_idx <$> names))
  | _ => Raise (FileNotFoundError directory)
  end.

(** [datasets.ImageFolder(root, transform=transform)]. *)
Definition ImageFolder (fs : FileSystem) (root : string)
    (transform : Compose) : result Dataset :=
  '(classes, class_to_idx) ← find_classes fs root;
  samples ← make_dataset fs root class_to_idx;
  mret {| root := root; transform := transform; classes := classes;
          class_to_idx := class_to_idx; samples := samples |}.

(** ** [torch.utils.data.DataLoader] *)

Record DataLoader := {
  dataset : Dataset;
  batch_size : Z;
  shuffle : bool
}.

(** ** [data_loaders] (lines 139-185) *)

Definition data_loaders (fs : FileSystem)
    (subdirs_dict : gmap string string) (transforms_dict : gmap string Compose)
    : result (gmap string DataLoader * gmap string nat) :=
  let datasets_dict : gmap string Dataset := ∅ in
  p ← getitem subdirs_dict "train";
  t ← getitem transforms_dict "train";
  ds ← ImageFolder fs p t;
  let datasets_dict := <["train" := ds]> datasets_dict in
  p ← getitem subdirs_dict "valid";
  t ← getitem transforms_dict "valid";
  ds ← ImageFolder fs p t;
  let datasets_dict := <["valid" := ds]> datasets_dict in
  p ← getitem subdirs_dict "test";
  t ← getitem transforms_dict "test";
  ds ← ImageFolder fs p t;
  let datasets_dict := <["test" := ds]> datasets_dict in
  ds ← getitem datasets_dict "train";
  let class_to_idx_dict := class_to_idx ds in
  let dataloaders_dict : gmap string DataLoader := ∅ in
  ds ← getitem datasets_dict "train";
  let dataloaders_dict :=
    <["train" := {| dataset := ds; batch_size := 32; shuffle := true |}]>
      dataloaders_dict in
  ds ← getitem datasets_dict "train";
  let dataloaders_dict :=
    <["valid" := {| dataset := ds; batch_size := 32; shuffle := true |}]>
      dataloaders_dict in
  ds ← getitem datasets_dict "train";
  let dataloaders_dict :=
    <["test" := {| dataset := ds; batch_size := 32; shuffle := true |}]>
      dataloaders_dict in
  mret (dataloaders_dict, class_to_idx_dict).

(** A small file system for examples: [flowers/] with two classes and four
    training images, two validation images and two test images. *)
Definition flowers_fs : FileSystem := {|
  scandir path :=
    if bool_decide (path ∈ ["flowers/train/"; "flowers/valid/"; "flowers/test/"])
    then Some {[ "daisy" := true; "rose" := true; "README.txt" := false ]}
    else None;
  image_files path :=
    if bool_decide (path = "flowers/train/daisy") then
      ["flowers/train/daisy/1.jpg"; "flowers/train/daisy/2.jpg"]
    else if bool_decide (path = "flowers/train/rose") then
      ["flowers/train/rose/1.jpg"; "flowers/train/rose/2.jpg"]
    else if bool_decide (path = "flowers/valid/daisy") then
      ["flowers/valid/daisy/3.jpg"]
    else if bool_decide (path = "flowers/valid/rose") then
      ["flowers/valid/rose/3.jpg"]
    else if bool_decide (path = "flowers/test/daisy") then
      ["flowers/test/daisy/4.jpg"]
    else if bool_decide (path = "flowers/test/rose") then
      ["flowers/test/rose/4.jpg"]
    else []
|}.

(** [flowers_fs] without its validation directory. *)
Definition flowers_no_valid : FileSystem := {|
  scandir path :=
    if bool_decide (path = "flowers/valid/") then None
    else scandir flowers_fs path;
  image_files := image_files flowers_fs
|}.

(** The data loader the source builds from a dataset. *)
Definition loader_of (ds : Dataset) : DataLoader :=
  {| dataset := ds; batch_size := 32; shuffle := true |}.

(** The three split names. *)
Definition splits : list string := ["train"; "valid"; "test"].

(** The dataset of a split: the one [ImageFolder] builds from the split's
    own directory and the split's own pipeline. *)
Definition split_dataset (fs : FileSystem) (sd : gmap string string)
    (td : gmap string Compose) (s : string) : result Dataset :=
  p ← getitem sd s; t ← getitem td s; ImageFolder fs p t.

(** The name of a step, without its arguments. *)
Inductive StepKind :=
  | KRandomRotation | KRandomResizedCrop | KRandomHorizontalFlip
  | KToTensor | KNormalize | KResize | KCenterCrop.

Definition step_kind (t : Transform) : StepKind :=
  match t with
  | RandomRotation _ => KRandomRotation
  | RandomResizedCrop _ => KRandomResizedCrop
  | RandomHorizontalFlip => KRandomHorizontalFlip
  | ToTensor => KToTensor
  | Normalize _ _ => KNormalize
  | Resize _ => KResize
  | CenterCrop _ => KCenterCrop
  end.

(** What [data_loaders] returns on the [flowers/] tree. *)
Definition flowers_loaded : gmap string DataLoader * gmap string nat :=
  Eval vm_compute in
    match data_loaders flowers_fs (data_subdirs "flowers/") data_transforms
    with
    | Ok r => r
    | Raise _ => (∅, ∅)
    end.


(** ** Python builtins on strings *)

(** [c in s]. *)
Fixpoint contains (c : ascii) (s : string) : bool :=
  match s with
  | "" => false
  | String c' s' => bool_decide (c' = c) || contains c s'
  end.

(** [s.split(c, 1)] when [c] occurs in [s]: the text before the first [c]
    and the text after it. *)
Fixpoint split_once (c : ascii) (s : string) : option (string * string) :=
  match s with
  | "" => None
  | String c' s' =>
      if bool_decide (c' = c) then Some ("", s')
      else '(before, after) ← split_once c s'; Some (String c' before, after)
  end.

(** [s.startswith(p)]. *)
Definition startswith (s p : string) : bool := String.prefix p s.

(** [s.lstrip(c)]. *)
Fixpoint lstrip (c : ascii) (s : string) : string :=
  match s with
  | String c' s' => if bool_decide (c' = c) then lstrip c s' else s
  | "" => ""
  end.

(** [s.replace(a, b)] for single characters. *)
Fixpoint replace (a b : ascii) (s : string) : string :=
  match s with
  | String c s' => String (if bool_decide (c = a) then b else c) (replace a b s')
  | "" => ""
  end.

Definition is_digit (c : ascii) : bool :=
  (48 <=? nat_of_ascii c)%nat && (nat_of_ascii c <=? 57)%nat.

(** [s] is a run of digits, possibly empty, followed by [rest]. *)
Fixpoint skip_digits (s : string) : string :=
  match s with
  | String c s' => if is_digit c then skip_digits s' else s
  | "" => ""
  end.

(** The end of a match of [$]: the end of the text, or a newline that ends
    it. *)
Definition at_end (s : string) : bool :=
  bool_decide (s = "") || bool_decide (s = String "010" "").

(** [re.match('^-\d+$|^-\d*\.\d+$', s)] succeeds. *)
Definition negative_number (s : string) : bool :=
  match s with
  | String "-" body =>
      let rest := skip_digits body in
      (negb (bool_decide (rest = body)) && at_end rest)
      || match rest with
         | String "." frac =>
             let rest' := skip_digits frac in
             negb (bool_decide (rest' = frac)) && at_end rest'
         | _ => false
         end
  | _ => false
  end.

(** ** Python numbers

    [float] values and the conversions [float(s)] and [int(s)] are taken as
    given: [None] stands for [ValueError]. *)

Class PythonNumbers := {
  pyfloat : Type;
  (** The float a decimal literal of the source denotes. *)
  float_of_Q : Q → pyfloat;
  float_of_str : string → option pyfloat;
  str_of_float : pyfloat → string;
  int_of_str : string → option Z
}.

(** ** [argparse] *)

Section argparse.
Context `{PythonNumbers}.

#[warnings="-register-all"] Inductive value :=
  | VNone
  | VBool (b : bool)
  | VInt (n : Z)
  | VFloat (x : pyfloat)
  | VStr (s : string)
  | VList (l : list value).

(** The callables the source passes as [type=]. *)
Inductive type_func := Tstr | Tfloat | Tint | Tbool.

(** [type_func(arg_string)]; [None] when it raises [ValueError]. *)
Definition call_type (t : type_func) (s : string) : option value :=
  match t with
  | Tstr => Some (VStr s)
  | Tfloat => VFloat <$> float_of_str s
  | Tint => VInt <$> int_of_str s
  | Tbool => Some (VBool (negb (bool_decide (s = ""))))
  end.

(** [store] takes one argument ([nargs=None]), [help] takes none. *)
Inductive action_kind := Store | Help.

(** [default = None] stands for [argparse.SUPPRESS]. *)
Record Action := {
  option_strings : list string;
  dest : string;
  kind : action_kind;
  type : type_func;
  default : option value;
  required : bool
}.

Definition SUPPRESS : string := "==SUPPRESS==".

(** [argparse.ArgumentParser()]: a parser with the help action. *)
Definition ArgumentParser : list Action :=
  [ {| option_strings := ["-h"; "--help"]; dest := SUPPRESS; kind := Help;
       type := Tstr; default := None; required := false |} ].

(** [parser.add_argument(name, type=type, default=default)]: an optional
    when [name] starts with [-], a required positional otherwise. *)
Definition add_argument (parser : list Action) (name : string)
    (type : type_func) (default : value) : list Action :=
  parser ++
  [ if startswith name "-" then
      {| option_strings := [name];
         dest := replace "-" "_" (lstrip "-" name);
         kind := Store; type := type; default := Some default;
         required := false |}
    else
      {| option_strings := []; dest := name; kind := Store; type := type;
         default := Some default; required := true |} ].

(** [parser.error(...)] and [parser.exit()] after the help text. *)
Definition usage_error {A} : result A := Raise (SystemExit 2).
Definition help_exit {A} : result A := Raise (SystemExit 0).

(** [parser._option_string_actions], in registration order. *)
Definition option_string_actions (parser : list Action)
    : list (string * Action) :=
  a ← parser; (λ o, (o, a)) <$> option_strings a.

Definition lookup_option (parser : list Action) (o : string)
    : option Action :=
  '(_, oa) ← list_find (λ oa, oa.1 = o) (option_string_actions parser);
  Some oa.2.

Definition has_negative_number_optionals (parser : list Action) : bool :=
  existsb (λ oa, negative_number oa.1) (option_string_actions parser).

(** What a token resolves to when it is an option: the action ([None] for
    an unknown option), the option string and the explicit argument. *)
Definition option_tuple : Type := option Action * string * option string.

(** [parser._get_option_tuples(option_string)]: the options that
    [option_string], of two characters at least and starting with [-],
    abbreviates. *)
Definition get_option_tuples (parser : list Action) (option_string : string)
    : list option_tuple :=
  match option_string with
  | String _ (String "-" _) =>
      let '(option_prefix, explicit_arg) :=
        match split_once "=" option_string with
        | Some (p, e) => (p, Some e)
        | None => (option_string, None)
        end in
      (λ oa, (Some oa.2, oa.1, explicit_arg)) <$>
        filter (λ oa, startswith oa.1 option_prefix)
               (option_string_actions parser)
  | String c0 (String c1 short_explicit_arg) =>
      let short_option_prefix := String c0 (String c1 "") in
      omap (λ oa,
        if bool_decide (oa.1 = short_option_prefix)
        then Some (Some oa.2, oa.1, Some short_explicit_arg)
        else if startswith oa.1 option_string
        then Some (Some oa.2, oa.1, None)
        else None) (option_string_actions parser)
  | _ => []
  end.

(** [parser._parse_optional(arg_string)]: [None] for a positional. *)
Definition parse_optional (parser : list Action) (arg_string : string)
    : result (option option_tuple) :=
  match arg_string with
  | "" => Ok None
  | String c0 tail =>
      if negb (bool_decide (c0 = "-"%char)) then Ok None else
      match lookup_option parser arg_string with
      | Some action => Ok (Some (Some action, arg_string, None))
      | None =>
          if bool_decide (tail = "") then Ok None else
          let explicit :=
            '(option_string, explicit_arg) ← split_once "=" arg_string;
            action ← lookup_option parser option_string;
            Some (Some action, option_string, Some explicit_arg) in
          match explicit with
          | Some tuple => Ok (Some tuple)
          | None =>
              match get_option_tuples parser arg_string with
              | _ :: _ :: _ => usage_error
              | [tuple] => Ok (Some tuple)
              | [] =>
                  if negative_number arg_string
                     && negb (has_negative_number_optionals parser)
                  then Ok None
                  else if contains " " arg_string then Ok None
                  else Ok (Some (None, arg_string, None))
              end
          end
      end
  end.

(** The letters of [arg_strings_pattern]: [A], [-] and [O]. *)
Inductive arg_class :=
  | CA
  | CSep
  | CO (tuple : option_tuple).

(** The first pass over the tokens: every token after the first [--] is
    an argument. *)
Fixpoint classify (parser : list Action) (after_sep : bool)
    (arg_strings : list string) : result (list (string * arg_class)) :=
  match arg_strings with
  | [] => Ok []
  | s :: rest =>
      if after_sep then
        toks ← classify parser true rest; mret ((s, CA) :: toks)
      else if bool_decide (s = "--") then
        toks ← classify parser true rest; mret ((s, CSep) :: toks)
      else
        o ← parse_optional parser s;
        toks ← classify parser false rest;
        mret ((s, match o with Some t => CO t | None => CA end) :: toks)
  end.

Record ParseState := {
  namespace : gmap string value;
  seen_actions : list string;
  positionals : list Action;
  extras : list string
}.

(** [arg_strings.remove('--')]: without the first [--]. *)
Fixpoint remove_sep (arg_strings : list string) : list string :=
  match arg_strings with
  | [] => []
  | s :: rest => if bool_decide (s = "--") then rest else s :: remove_sep rest
  end.

Definition get_value (action : Action) (arg_string : string)
    : result value :=
  match call_type (type action) arg_string with
  | Some v => Ok v
  | None => usage_error
  end.

(** [parser._get_values(action, arg_strings)] for the two kinds of
    action. *)
Definition get_values (action : Action) (arg_strings : list string)
    : result value :=
  match kind action, remove_sep arg_strings with
  | Store, [arg_string] => get_value action arg_string
  | _, l => VList <$> mapM (get_value action) l
  end.

(** [take_action(action, argument_strings)]. Actions are told apart by
    their [dest]. *)
Definition take_action (action : Action) (argument_strings : list string)
    (st : ParseState) : result ParseState :=
  let seen := seen_actions st ++ [dest action] in
  argument_values ← get_values action argument_strings;
  match kind action with
  | Store =>
      mret {| namespace := <[dest action := argument_values]> (namespace st);
              seen_actions := seen;
              positionals := positionals st;
              extras := extras st |}
  | Help => help_exit
  end.

Definition nargs (action : Action) : nat :=
  match kind action with Store => 1 | Help => 0 end.

Definition is_short (option_string : string) : bool :=
  match option_string with
  | String _ (String c _) => negb (bool_decide (c = "-"%char))
  | _ => false
  end.

(** The loop of [consume_optional] over an explicit argument: the
    argument-less single-dash flags that [-xyz] bundles, then the last
    action with what is left of the explicit argument. *)
Fixpoint explicit_flags (parser : list Action) (action : Action)
    (option_string explicit_arg : string) {struct explicit_arg}
    : result (list Action * (Action * option string)) :=
  match nargs action with
  | 1 => Ok ([], (action, Some explicit_arg))
  | _ =>
      if is_short option_string then
        match explicit_arg with
        | "" => usage_error
        | String c new_explicit_arg =>
            let option_string := String "-" (String c "") in
            match lookup_option parser option_string with
            | None => usage_error
            | Some action' =>
                match new_explicit_arg with
                | "" => Ok ([action], (action', None))
                | _ =>
                    '(flags, last) ← explicit_flags parser action'
                                       option_string new_explicit_arg;
                    mret (action :: flags, last)
                end
            end
        end
      else usage_error
  end.

Definition take_flags (flags : list Action) (st : ParseState)
    : result ParseState :=
  foldl (λ r a, st ← r; take_action a [] st) (Ok st) flags.

Definition has_option (toks : list (string * arg_class)) : bool :=
  existsb (λ t, match t.2 with CO _ => true | _ => false end) toks.

Definition add_extra (s : string) (st : ParseState) : ParseState :=
  {| namespace := namespace st; seen_actions := seen_actions st;
     positionals := positionals st; extras := extras st ++ [s] |}.

Definition set_positionals (ps : list Action) (st : ParseState)
    : ParseState :=
  {| namespace := namespace st; seen_actions := seen_actions st;
     positionals := ps; extras := extras st |}.

(** A match of the pattern [-*A-*] of a positional at the head of the
    tokens: the strings matched and the tokens left. *)
Fixpoint take_seps (toks : list (string * arg_class))
    : list string * list (string * arg_class) :=
  match toks with
  | (s, CSep) :: rest => let '(l, r) := take_seps rest in (s :: l, r)
  | _ => ([], toks)
  end.

Definition match_positional (toks : list (string * arg_class))
    : option (list string * list (string * arg_class)) :=
  let '(before, toks) := take_seps toks in
  match toks with
  | (s, CA) :: rest =>
      let '(after, rest) := take_seps rest in
      Some (before ++ s :: after, rest)
  | _ => None
  end.

(** [consume_positionals] when no option follows: the positionals left
    take what they match, in order; the tokens left over are returned. *)
Fixpoint consume_positionals (ps : list Action)
    (toks : list (string * arg_class)) (st : ParseState)
    : result (ParseState * list (string * arg_class)) :=
  match ps with
  | [] => Ok (set_positionals [] st, toks)
  | p :: ps' =>
      match match_positional toks with
      | None => Ok (set_positionals ps st, toks)
      | Some (args, rest) =>
          st ← take_action p args st;
          consume_positionals ps' rest st
      end
  end.

(** The main loop of [parser._parse_known_args], token by token. While an
    option is still to come, an argument goes to the next positional, or to
    the extras when none is left; an option takes its explicit argument or
    the argument that follows it. After the last option the positionals
    left take what they match and the rest goes to the extras. *)
Fixpoint consume (parser : list Action) (toks : list (string * arg_class))
    (st : ParseState) {struct toks} : result ParseState :=
  match toks with
  | [] => Ok st
  | (s, CO (None, _, _)) :: rest => consume parser rest (add_extra s st)
  | (s, CO (Some action, option_string, Some explicit_arg)) :: rest =>
      '(flags, last) ← explicit_flags parser action option_string
                         explicit_arg;
      st ← take_flags flags st;
      match last with
      | (action, Some explicit_arg) =>
          st ← take_action action [explicit_arg] st;
          consume parser rest st
      | (action, None) =>
          match nargs action, rest with
          | 0, _ => st ← take_action action [] st; consume parser rest st
          | _, (s', CA) :: rest' =>
              st ← take_action action [s'] st; consume parser rest' st
          | _, _ => usage_error
          end
      end
  | (s, CO (Some action, option_string, None)) :: rest =>
      match nargs action, rest with
      | 0, _ => st ← take_action action [] st; consume parser rest st
      | _, (s', CA) :: rest' =>
          st ← take_action action [s'] st; consume parser rest' st
      | _, _ => usage_error
      end
  | (s, _) :: rest =>
      if has_option rest then
        match positionals st with
        | p :: ps =>
            st ← take_action p [s] st;
            consume parser rest (set_positionals ps st)
        | [] => consume parser rest (add_extra s st)
        end
      else
        '(st, rest) ← consume_positionals (positionals st) toks st;
        mret (foldl (λ st t, add_extra t.1 st) st rest)
  end.

(** The checks after the loop, action by action: a required action that
    was not seen is an error; the string default of an action that was not
    seen goes through the action's [type]. *)
Fixpoint check_actions (actions : list Action) (seen : list string)
    (ns : gmap string value) : result (gmap string value) :=
  match actions with
  | [] => Ok ns
  | action :: actions =>
      if bool_decide (dest action ∈ seen) then check_actions actions seen ns
      else if required action then
        _ ← check_actions actions seen ns; usage_error
      else
        match default action with
        | Some (VStr s) =>
            match ns !! dest action with
            | Some (VStr s') =>
                if bool_decide (s' = s) then
                  v ← get_value action s;
                  check_actions actions seen (<[dest action := v]> ns)
                else check_actions actions seen ns
            | _ => check_actions actions seen ns
            end
        | _ => check_actions actions seen ns
        end
  end.

(** The namespace before parsing: the default of every action, the first
    one for a [dest]. *)
Definition initial_namespace (parser : list Action) : gmap string value :=
  foldl (λ ns action,
    match default action with
    | Some d =>
        if bool_decide (dest action = SUPPRESS) then ns
        else match ns !! dest action with
             | Some _ => ns
             | None => <[dest action := d]> ns
             end
    | None => ns
    end) ∅ parser.

Definition get_positional_actions (parser : list Action) : list Action :=
  filter (λ a, option_strings a = []) parser.

(** [parser.parse_args(argv)]. *)
Definition parse_args (parser : list Action) (argv : list string)
    : result (gmap string value) :=
  let ns := initial_namespace parser in
  toks ← classify parser false argv;
  st ← consume parser toks
         {| namespace := ns; seen_actions := [];
            positionals := get_positional_actions parser; extras := [] |};
  ns ← check_actions parser (seen_actions st) (namespace st);
  match extras st with
  | [] => Ok ns
  | _ => usage_error
  end.

(** ** [get_input_args] (lines 13-63); [argv] is [sys.argv[1:]] *)

(** The parser the function builds before it parses. *)
Definition input_parser : list Action :=
  let parser := ArgumentParser in
  let parser := add_argument parser "data_dir" Tstr VNone in
  let parser := add_argument parser "--arch" Tstr (VStr "vgg11") in
  let parser := add_argument parser "--save_dir" Tstr VNone in
  let parser := add_argument parser "--learning_rate" Tfloat
                  (VFloat (float_of_Q 0.001)) in
  let parser := add_argument parser "--hidden_units" Tint (VInt 512) in
  let parser := add_argument parser "--epochs" Tint (VInt 5) in
  let parser := add_argument parser "--gpu" Tbool (VBool true) in
  parser.

Definition get_input_args (argv : list string)
    : result (gmap string value) :=
  let parser := input_parser in
  parse_args parser argv.

(** The [dest] of the option a token names, be it the option string, an
    abbreviation of it, or either followed by [=value]. *)
Definition option_dest (parser : list Action) (tok : string)
    : option string :=
  match parse_optional parser tok with
  | Ok (Some (Some action, _, _)) => Some (dest action)
  | _ => None
  end.

(** ** [str], [repr] and [print] *)

Definition nl : string := String "010" "".

Definition hex_digit (n : nat) : ascii :=
  match n with
  | 0 => "0" | 1 => "1" | 2 => "2" | 3 => "3" | 4 => "4" | 5 => "5"
  | 6 => "6" | 7 => "7" | 8 => "8" | 9 => "9" | 10 => "a" | 11 => "b"
  | 12 => "c" | 13 => "d" | 14 => "e" | _ => "f"
  end%char.

(** [repr(s)] of an ASCII string. *)
Definition repr_char (quote c : ascii) : string :=
  if bool_decide (c = "\"%char) then "\\"
  else if bool_decide (c = quote) then String "\" (String quote "")
  else if bool_decide (c = "010"%char) then "\n"
  else if bool_decide (c = "013"%char) then "\r"
  else if bool_decide (c = "009"%char) then "\t"
  else if (nat_of_ascii c <? 32)%nat || (126 <? nat_of_ascii c)%nat then
    String "\" (String "x" (String (hex_digit (nat_of_ascii c / 16))
      (String (hex_digit (nat_of_ascii c mod 16)) "")))
  else String c "".

Fixpoint repr_chars (quote : ascii) (s : string) : string :=
  match s with
  | "" => ""
  | String c s' => repr_char quote c +:+ repr_chars quote s'
  end.

Definition repr_str (s : string) : string :=
  let quote : ascii :=
    if contains "'"%char s && negb (contains "034"%char s)
    then "034"%char else "'"%char in
  String quote (repr_chars quote s) +:+ String quote "".

Fixpoint py_repr (v : value) : string :=
  match v with
  | VNone => "None"
  | VBool true => "True"
  | VBool false => "False"
  | VInt n => pretty n
  | VFloat x => str_of_float x
  | VStr s => repr_str s
  | VList l => "[" +:+ String.concat ", " (List.map py_repr l) +:+ "]"
  end.

Definition py_str (v : value) : string :=
  match v with
  | VStr s => s
  | _ => py_repr v
  end.

(** [print] of several strings, with the default separator and ending, on the text
    printed so far. *)
Definition print (args : list string) (stdout : string) : string :=
  stdout +:+ String.concat " " args +:+ nl.

(** [obj.name] on a namespace. *)
Definition getattr (obj : gmap string value) (name : string)
    : result value :=
  match obj !! name with
  | Some v => Ok v
  | None => Raise (AttributeError name)
  end.

(** ** [print_input_args] (lines 66-82)

    The function returns [None], here [tt], and the text printed so far is
    threaded through. *)
Definition print_input_args (in_args : gmap string value) (stdout : string)
    : result (unit * string) :=
  data_dir ← getattr in_args "data_dir";
  arch ← getattr in_args "arch";
  save_dir ← getattr in_args "save_dir";
  learning_rate ← getattr in_args "learning_rate";
  hidden_units ← getattr in_args "hidden_units";
  epochs ← getattr in_args "epochs";
  gpu ← getattr in_args "gpu";
  let stdout :=
    print [nl +:+ "Command line arguments:";
           nl +:+ "    dir = "; py_str data_dir;
           nl +:+ "    arch = "; py_str arch;
           nl +:+ "    save_dir = "; py_str save_dir;
           nl +:+ "    learning_rate = "; py_str learning_rate;
           nl +:+ "    hidden_units = "; py_str hidden_units;
           nl +:+ "    epochs = "; py_str epochs;
           nl +:+ "    gpu = "; py_str gpu;
           nl] stdout in
  mret (tt, stdout).

(** The actions of [input_parser], one by one. *)
Definition help_action : Action :=
  {| option_strings := ["-h"; "--help"]; dest := SUPPRESS; kind := Help;
     type := Tstr; default := None; required := false |}.

Definition store_action (o d : string) (t : type_func) (v : value)
    : Action :=
  {| option_strings := [o]; dest := d; kind := Store; type := t;
     default := Some v; required := false |}.

Definition data_dir_action : Action :=
  {| option_strings := []; dest := "data_dir"; kind := Store; type := Tstr;
     default := Some VNone; required := true |}.

(** The tokens an option can take its argument from: [E action e] for an
    explicit argument, [N action s] for the token that follows. *)
Fixpoint toks_ok (E N : Action → string → Prop)
    (toks : list (string * arg_class)) : Prop :=
  match toks with
  | [] => True
  | (_, CO (Some action, _, Some e)) :: rest =>
      (kind action = Store → E action e) ∧ toks_ok E N rest
  | (_, CO (Some action, _, None)) :: rest =>
      match rest with
      | (s', CA) :: _ => kind action = Store → N action s'
      | _ => True
      end ∧ toks_ok E N rest
  | _ :: rest => toks_ok E N rest
  end.

(** The fields of a parsed configuration, and the labels the summary
    gives them. *)
Definition field_names : list string :=
  ["data_dir"; "arch"; "save_dir"; "learning_rate"; "hidden_units";
   "epochs"; "gpu"].

Definition field_labels : list string :=
  ["dir"; "arch"; "save_dir"; "learning_rate"; "hidden_units";
   "epochs"; "gpu"].

(** The summary, line by line, for the values of the fields in order: an
    empty line, the heading, a line per field, two empty lines. *)
Definition summary_lines (values : list value) : list string :=
  ["" ; "Command line arguments: "]
  ++ zip_with (λ label v, "    " +:+ label +:+ " =  " +:+ py_str v +:+ " ")
       field_labels values
  ++ [""; ""].

End argparse.

(** [text.split('\n')]: the lines of a text. *)
Fixpoint split_lines (text : string) : list string :=
  match text with
  | "" => [""]
  | String c text' =>
      if bool_decide (c = "010"%char) then "" :: split_lines text'
      else match split_lines text' with
           | line :: lines => String c line :: lines
           | [] => [String c ""]
           end
  end.

(** A text has, for every field, a line that starts with the name of the
    field, indentation aside. *)
Definition names_every_field (text : string) : Prop :=
  ∀ name, name ∈ field_names →
    ∃ line, line ∈ split_lines text ∧ startswith (lstrip " " line) name = true.

(** ** Numbers for the examples

    Floats that are decimal fractions, kept exactly; [float(s)] and [int(s)]
    on plain decimal numerals, with blanks around them and a sign. *)

Fixpoint digits_value (acc : N) (s : string) : option N :=
  match s with
  | "" => Some acc
  | String c s' =>
      if is_digit c
      then digits_value (acc * 10 + N.of_nat (nat_of_ascii c - 48)) s'
      else None
  end.

Definition numeral (s : string) : option N :=
  if bool_decide (s = "") then None else digits_value 0 s.

Definition is_space (c : ascii) : bool :=
  bool_decide (c = " "%char)
  || (9 <=? nat_of_ascii c)%nat && (nat_of_ascii c <=? 13)%nat.

Fixpoint lstrip_space (s : string) : string :=
  match s with
  | String c s' => if is_space c then lstrip_space s' else s
  | "" => ""
  end.

Definition strip (s : string) : string :=
  String.rev (lstrip_space (String.rev (lstrip_space s))).

Definition signed {A} (parse : string → option A) (neg : A → A) (s : string)
    : option A :=
  match strip s with
  | String c s' =>
      if bool_decide (c = "-"%char) then neg <$> parse s'
      else if bool_decide (c = "+"%char) then parse s'
      else parse (String c s')
  | "" => parse ""
  end.

Definition decimal_fraction (s : string) : option Q :=
  match split_once "." s with
  | None => (λ n, inject_Z (Z.of_N n)) <$> numeral s
  | Some (int_part, frac_part) =>
      n ← numeral (int_part +:+ frac_part);
      Some (Z.of_N n # Pos.pow 10 (Pos.of_nat (String.length frac_part)))
  end.

Fixpoint fraction_digits (fuel : nat) (r d : N) : string :=
  match fuel with
  | O => ""
  | S fuel =>
      if bool_decide (r = 0%N) then ""
      else let '(q, r') := N.div_eucl (r * 10) d in
           String (pretty_N_char q) (fraction_digits fuel r' d)
  end.

Definition str_of_Q (q : Q) : string :=
  let n := Z.abs_N (Qnum q) in
  let d := Npos (Qden q) in
  let frac := fraction_digits 17 (n mod d) d in
  (if bool_decide (Qnum q < 0)%Z then "-" else "")
  +:+ pretty (n / d)%N +:+ "."
  +:+ (if bool_decide (frac = "") then "0" else frac).

Definition example_numbers : PythonNumbers := {|
  pyfloat := Q;
  float_of_Q q := q;
  float_of_str := signed decimal_fraction Qopp;
  str_of_float := str_of_Q;
  int_of_str := signed (λ s, Z.of_N <$> numeral s) Z.opp
|}.

(** The configuration parsed from the command line [flowers/], with the
    numbers of the examples. *)
Definition flowers_args : gmap string (@value example_numbers) :=
  Eval vm_compute in
    match get_input_args (H := example_numbers) ["flowers/"] with
    | Ok ns => ns
    | Raise _ => ∅
    end.

(** The same for [flowers/ --epochs 3 --gpu False]. *)
Definition flowers_args_gpu : gmap string (@value example_numbers) :=
  Eval vm_compute in
    match get_input_args (H := example_numbers)
            ["flowers/"; "--epochs"; "3"; "--gpu"; "False"] with
    | Ok ns => ns
    | Raise _ => ∅
    end.

(** What [print_input_args] prints for [flowers_args]. *)
Definition flowers_summary : string :=
  Eval vm_compute in
    match print_input_args flowers_args "" with
    | Ok (_, out) => out
    | Raise _ => ""
    end.

(** ** Further definitions *)

(** The prefixes of a string, the shortest first. *)
Fixpoint prefixes (s : string) : list string :=
  "" :: match s with
        | "" => []
        | String c s' => String c <$> prefixes s'
        end.

(** What comes before the first [=] of a token: the whole token when it has
    none. *)
Definition option_prefix (tok : string) : string :=
  match split_once "=" tok with
  | Some (p, _) => p
  | None => tok
  end.

(** The shortest spelling of each optional argument of [get_input_args] that
    [argparse] still tells from the other options, by the [dest] of the
    argument. *)
Definition shortest_spelling (d : string) : option string :=
  if bool_decide (d = "arch") then Some "--a"
  else if bool_decide (d = "save_dir") then Some "--s"
  else if bool_decide (d = "learning_rate") then Some "--l"
  else if bool_decide (d = "hidden_units") then Some "--hi"
  else if bool_decide (d = "epochs") then Some "--e"
  else if bool_decide (d = "gpu") then Some "--g"
  else None.

Section spelling_defs.
Context `{PythonNumbers}.

(** The option strings of the parser that start with a prefix. *)
Definition matching (p : string) : list (string * Action) :=
  filter (λ oa, startswith oa.1 p) (option_string_actions input_parser).

End spelling_defs.

Section typed_defs.
Context `{PythonNumbers}.

(** The tokens that come out of the first pass of [argparse] on a command
    line: the separator [--] is followed by arguments only, and no argument
    before it is the string [--]. *)
Fixpoint wf_toks (toks : list (string * arg_class)) : Prop :=
  match toks with
  | [] => True
  | (s, CSep) :: rest => s = "--" ∧ Forall (λ t, t.2 = CA) rest
  | (s, CA) :: rest => s ≠ "--" ∧ wf_toks rest
  | (_, CO _) :: rest => wf_toks rest
  end.

(** The strings a command line can give to an option: a token, or what
    follows the [=] of a token. *)
Definition from_command_line (argv : list string) (s : string) : Prop :=
  s ∈ argv ∨ ∃ tok o, tok ∈ argv ∧ split_once "=" tok = Some (o, s).

(** The field [f] holds its default, or what the callable [t] makes of a
    string of the command line. *)
Definition field_from (argv : list string) (ns : gmap string value)
    (f : string) (t : type_func) (dflt : value) : Prop :=
  ns !! f = Some dflt
  ∨ ∃ s v, from_command_line argv s ∧ call_type t s = Some v
           ∧ ns !! f = Some v.

(** The optional fields with their callables and defaults, as the calls of
    [add_argument] give them. *)
Definition optional_fields : list (string * type_func * value) :=
  [ ("arch", Tstr, VStr "vgg11"); ("save_dir", Tstr, VNone);
    ("learning_rate", Tfloat, VFloat (float_of_Q 0.001));
    ("hidden_units", Tint, VInt 512); ("epochs", Tint, VInt 5);
    ("gpu", Tbool, VBool true) ].

End typed_defs.
(** * Properties *)

(** ** Dicts built from items *)

Section dict_of_items.
Context {V : Type}.
Implicit Types (items : list (string * V)).

Lemma dict_of_items_snoc items k v :
  dict_of_items (items ++ [(k, v)]) = <[k := v]> (dict_of_items items).
Proof. unfold dict_of_items. by rewrite foldl_app. Qed.

Lemma dict_of_items_reverse items :
  dict_of_items items = list_to_map (reverse items).
Proof.
  induction items as [|[k v] items IH] using rev_ind; [done|].
  by rewrite dict_of_items_snoc, reverse_snoc, IH.
Qed.

Lemma dict_of_items_to_list items :
  NoDup items.*1 → map_to_list (dict_of_items items) ≡ₚ items.
Proof.
  intros Hnd. rewrite dict_of_items_reverse.
  rewrite map_to_list_to_map.
  - apply reverse_Permutation.
  - by rewrite fmap_reverse, reverse_Permutation.
Qed.
End dict_of_items.

Lemma enumerate_swap_fst {A} (l : list A) :
  ((λ ic : nat * A, (ic.2, ic.1)) <$> enumerate l).*1 = l.
Proof.
  unfold enumerate. rewrite <-list_fmap_compose.
  apply (snd_zip (seq 0 (length l)) l). by rewrite length_seq.
Qed.

Lemma enumerate_swap_snd {A} (l : list A) :
  ((λ ic : nat * A, (ic.2, ic.1)) <$> enumerate l).*2 = seq 0 (length l).
Proof.
  unfold enumerate. rewrite <-list_fmap_compose.
  apply (fst_zip (seq 0 (length l)) l). by rewrite length_seq.
Qed.

(** ** [find_classes] and [ImageFolder] *)

Lemma find_classes_ok fs directory classes c2i :
  find_classes fs directory = Ok (classes, c2i) →
  ∃ entries,
    scandir fs directory = Some entries
    ∧ classes ≡ₚ (map_to_list (class_folders entries)).*1
    ∧ map_to_list c2i ≡ₚ zip classes (seq 0 (length classes)).
Proof.
  unfold find_classes. destruct (scandir fs directory) as [entries|]; [|done].
  set (cls := sorted _).
  assert (Hperm : cls ≡ₚ (map_to_list (class_folders entries)).*1)
    by apply merge_sort_Permutation.
  intros Heq. assert (classes = cls ∧
    c2i = dict_of_items ((λ ic, (ic.2, ic.1)) <$> enumerate cls)) as [-> ->].
  { destruct cls; [done|]. by inversion Heq. }
  exists entries. split_and!; [done..|].
  rewrite dict_of_items_to_list.
  - unfold enumerate. clear. generalize 0.
    induction cls as [|c cls IH]; intros n; simpl; [done|]. by rewrite IH.
  - rewrite enumerate_swap_fst, Hperm. apply NoDup_fst_map_to_list.
Qed.

Lemma find_classes_missing fs directory :
  scandir fs directory = None →
  find_classes fs directory = Raise (FileNotFoundError directory).
Proof. unfold find_classes. by intros ->. Qed.

Lemma ImageFolder_ok fs p t ds :
  ImageFolder fs p t = Ok ds →
  root ds = p ∧ transform ds = t
  ∧ find_classes fs p = Ok (classes ds, class_to_idx ds).
Proof.
  unfold ImageFolder. destruct (find_classes fs p) as [[cls c2i]|]; [|done].
  simpl. destruct (make_dataset fs p c2i); [|done].
  simpl. by intros [= <-].
Qed.

Lemma ImageFolder_missing fs p t :
  scandir fs p = None → ImageFolder fs p t = Raise (FileNotFoundError p).
Proof. intros H. unfold ImageFolder. by rewrite find_classes_missing. Qed.

(** ** [data_loaders]: when it returns, and what *)

Local Ltac raise_case :=
  split; [done|];
  intros (?&?&?&?&?&?&?&?&?&?&?&?&?&?&?&?&?&?&?&?); simplify_eq; congruence.

Lemma data_loaders_ok fs sd td loaders c2i :
  data_loaders fs sd td = Ok (loaders, c2i) ↔
  ∃ p1 t1 d1 p2 t2 d2 p3 t3 d3,
    sd !! "train" = Some p1 ∧ td !! "train" = Some t1
    ∧ ImageFolder fs p1 t1 = Ok d1
    ∧ sd !! "valid" = Some p2 ∧ td !! "valid" = Some t2
    ∧ ImageFolder fs p2 t2 = Ok d2
    ∧ sd !! "test" = Some p3 ∧ td !! "test" = Some t3
    ∧ ImageFolder fs p3 t3 = Ok d3
    ∧ loaders = <["test" := loader_of d1]> (<["valid" := loader_of d1]>
                  (<["train" := loader_of d1]> ∅))
    ∧ c2i = class_to_idx d1.
Proof.
  unfold data_loaders, getitem.
  destruct (sd !! "train") as [p1|] eqn:Hp1; simpl; [|raise_case].
  destruct (td !! "train") as [t1|] eqn:Ht1; simpl; [|raise_case].
  destruct (ImageFolder fs p1 t1) as [d1|] eqn:Hd1; simpl; [|raise_case].
  destruct (sd !! "valid") as [p2|] eqn:Hp2; simpl; [|raise_case].
  destruct (td !! "valid") as [t2|] eqn:Ht2; simpl; [|raise_case].
  destruct (ImageFolder fs p2 t2) as [d2|] eqn:Hd2; simpl; [|raise_case].
  destruct (sd !! "test") as [p3|] eqn:Hp3; simpl; [|raise_case].
  destruct (td !! "test") as [t3|] eqn:Ht3; simpl; [|raise_case].
  destruct (ImageFolder fs p3 t3) as [d3|] eqn:Hd3; simpl; [|raise_case].
  assert (Hget : (<["test" := d3]> (<["valid" := d2]> (<["train" := d1]> ∅))
                   : gmap string Dataset) !! "train" = Some d1) by done.
  rewrite Hget. simpl. unfold mret, result_ret, loader_of. split.
  - intros [= <- <-]. by exists p1, t1, d1, p2, t2, d2, p3, t3, d3.
  - intros (?&?&d1'&?&?&?&?&?&?&?&?&Hd1'&_&_&_&_&_&_&->&->).
    simplify_eq. by replace d1' with d1 by congruence.
Qed.

Lemma data_loaders_lookup fs sd td loaders c2i s :
  data_loaders fs sd td = Ok (loaders, c2i) → s ∈ splits →
  ∃ p t d, sd !! "train" = Some p ∧ td !! "train" = Some t
    ∧ ImageFolder fs p t = Ok d ∧ loaders !! s = Some (loader_of d)
    ∧ c2i = class_to_idx d.
Proof.
  intros (p1&t1&d1&?&?&?&?&?&?&?&?&?&_&_&_&_&_&_&->&->)%data_loaders_ok Hs.
  exists p1, t1, d1. split_and!; [done..| |done].
  unfold splits in Hs.
  repeat (apply elem_of_cons in Hs as [->|Hs]; [done|]).
  by apply elem_of_nil in Hs.
Qed.

Lemma lookup_splits {V} (a b c : V) (s : string) (v : V) :
  (<["test" := c]> (<["valid" := b]> (<["train" := a]> ∅)) : gmap string V)
    !! s = Some v →
  s ∈ splits.
Proof.
  intros H. unfold splits.
  destruct (decide (s = "test")) as [->|]; [set_solver|].
  destruct (decide (s = "valid")) as [->|]; [set_solver|].
  destruct (decide (s = "train")) as [->|]; [set_solver|].
  by simplify_map_eq.
Qed.

(** C1. On the [flowers/] tree the call returns, and the validation loader
    does not read the validation dataset: its dataset is the training one
    (root [flowers/train/], training pipeline), which differs from the dataset
    built from [flowers/valid/] and the validation pipeline. The test loader
    does the same. Only the training loader reads its own split. *)
Theorem data_loaders_valid_test_read_train :
  let sd := data_subdirs "flowers/" in
  let td := data_transforms in
  ∃ loaders c2i d_train d_valid d_test,
    data_loaders flowers_fs sd td = Ok (loaders, c2i)
    ∧ split_dataset flowers_fs sd td "train" = Ok d_train
    ∧ split_dataset flowers_fs sd td "valid" = Ok d_valid
    ∧ split_dataset flowers_fs sd td "test" = Ok d_test
    ∧ dataset <$> loaders !! "train" = Some d_train
    ∧ dataset <$> loaders !! "valid" = Some d_train
    ∧ dataset <$> loaders !! "test" = Some d_train
    ∧ d_train ≠ d_valid ∧ d_train ≠ d_test
    ∧ root d_train = "flowers/train/" ∧ root d_valid = "flowers/valid/"
    ∧ root d_test = "flowers/test/".
Proof.
  intros sd td.
  destruct (split_dataset flowers_fs sd td "train") as [d1|] eqn:H1;
    [|by vm_compute in H1].
  destruct (split_dataset flowers_fs sd td "valid") as [d2|] eqn:H2;
    [|by vm_compute in H2].
  destruct (split_dataset flowers_fs sd td "test") as [d3|] eqn:H3;
    [|by vm_compute in H3].
  assert (R1 : root d1 = "flowers/train/").
  { pose proof H1 as H. vm_compute in H. by injection H as <-. }
  assert (R2 : root d2 = "flowers/valid/").
  { pose proof H2 as H. vm_compute in H. by injection H as <-. }
  assert (R3 : root d3 = "flowers/test/").
  { pose proof H3 as H. vm_compute in H. by injection H as <-. }
  exists (<["test" := loader_of d1]> (<["valid" := loader_of d1]>
            (<["train" := loader_of d1]> ∅))), (class_to_idx d1), d1, d2, d3.
  split_and!; [|reflexivity..| | |exact R1|exact R2|exact R3].
  - apply data_loaders_ok.
    eexists _, _, d1, _, _, d2, _, _, d3.
    split_and!; [vm_compute; reflexivity|vm_compute; reflexivity|exact H1
                |vm_compute; reflexivity|vm_compute; reflexivity|exact H2
                |vm_compute; reflexivity|vm_compute; reflexivity|exact H3
                |reflexivity..].
  - intros ->. by rewrite R1 in R2.
  - intros ->. by rewrite R1 in R3.
Qed.

(** C2. [data_subdirs d] has exactly the keys [train], [valid] and [test];
    each value is [d] followed by the split's suffix, whatever [d] is: the
    function is total, takes no file system, and adds no separator (the root
    [flowers] gives [flowerstrain/]). *)
Theorem data_subdirs_spec (d : string) :
  dom (data_subdirs d) = {["train"; "valid"; "test"]}
  ∧ data_subdirs d !! "train" = Some (d +:+ "train/")
  ∧ data_subdirs d !! "valid" = Some (d +:+ "valid/")
  ∧ data_subdirs d !! "test" = Some (d +:+ "test/")
  ∧ (∀ k v, data_subdirs d !! k = Some v → v = d +:+ k +:+ "/")
  ∧ data_subdirs "flowers" !! "train" = Some "flowerstrain/".
Proof.
  unfold data_subdirs. split_and!; [|done..| |done].
  - rewrite !dom_insert_L, dom_empty_L. set_solver.
  - intros k v Hk. apply lookup_splits in Hk as Hs. unfold splits in Hs.
    repeat (apply elem_of_cons in Hs as [->|Hs]; [by simplify_map_eq|]).
    by apply elem_of_nil in Hs.
Qed.

(** C3. The training pipeline is, in order, random rotation (30), random
    resized crop (224), random horizontal flip, to-tensor, normalize; the
    validation and the test pipeline are the same pipeline: resize (256),
    center crop (224), to-tensor, normalize, none of them random. There is no
    fourth pipeline. *)
Theorem data_transforms_pipelines :
  dom data_transforms = {["train"; "valid"; "test"]}
  ∧ (∃ mean std, steps <$> data_transforms !! "train" =
       Some [RandomRotation 30; RandomResizedCrop 224; RandomHorizontalFlip;
             ToTensor; Normalize mean std])
  ∧ (∃ mean std, steps <$> data_transforms !! "valid" =
       Some [Resize 256; CenterCrop 224; ToTensor; Normalize mean std])
  ∧ data_transforms !! "valid" = data_transforms !! "test"
  ∧ (∀ s p, s ∈ ["valid"; "test"] → data_transforms !! s = Some p →
       step_kind <$> steps p = [KResize; KCenterCrop; KToTensor; KNormalize]
       ∧ forallb (λ t, negb (is_random t)) (steps p) = true).
Proof.
  split_and!.
  - unfold data_transforms. rewrite !dom_insert_L, dom_empty_L. set_solver.
  - by eexists _, _.
  - by eexists _, _.
  - done.
  - intros s p Hs Hp.
    repeat (apply elem_of_cons in Hs as [->|Hs];
            [by vm_compute in Hp; injection Hp as <-|]).
    by apply elem_of_nil in Hs.
Qed.

(** C7. [data_transforms] returns a pipeline for each of the three splits
    and for nothing else, and every one of the three ends with a
    normalization whose mean is (485/1000, 456/1000, 406/1000) and whose
    standard deviation is (229/1000, 224/1000, 225/1000), as exact rationals,
    and has no other normalization step. *)
Theorem data_transforms_normalize :
  dom data_transforms = {["train"; "valid"; "test"]}
  ∧ ∀ s, s ∈ splits →
      ∃ p, data_transforms !! s = Some p
           ∧ last (steps p)
             = Some (Normalize [485 # 1000; 456 # 1000; 406 # 1000]
                               [229 # 1000; 224 # 1000; 225 # 1000])
           ∧ ∀ t, t ∈ steps p → step_kind t = KNormalize →
               t = Normalize [485 # 1000; 456 # 1000; 406 # 1000]
                             [229 # 1000; 224 # 1000; 225 # 1000].
Proof.
  split.
  { unfold data_transforms. rewrite !dom_insert_L, dom_empty_L. set_solver. }
  intros s Hs. unfold splits in Hs.
  repeat (apply elem_of_cons in Hs as [->|Hs]; [|]);
    [..|by apply elem_of_nil in Hs].
  all: eexists; split; [reflexivity|]; split; [done|].
  all: intros t Ht; simpl in Ht.
  all: repeat (apply elem_of_cons in Ht as [->|Ht]; [done|]).
  all: by apply elem_of_nil in Ht.
Qed.

Lemma data_transforms_normalize_witness :
  Forall (λ s, s ∈ splits
    ∧ ∃ p, data_transforms !! s = Some p
           ∧ last (steps p)
             = Some (Normalize [0.485; 0.456; 0.406]%Q
                               [0.229; 0.224; 0.225]%Q)
           ∧ ∀ t, t ∈ steps p → step_kind t = KNormalize →
               t = Normalize [485 # 1000; 456 # 1000; 406 # 1000]
                             [229 # 1000; 224 # 1000; 225 # 1000])
    ["train"; "valid"; "test"].
Proof.
  assert (H1 : "train" ∈ splits) by (by vm_compute; left).
  assert (H2 : "valid" ∈ splits) by (by vm_compute; right; left).
  assert (H3 : "test" ∈ splits) by (by vm_compute; right; right; left).
  repeat apply Forall_cons_2; [| | |apply Forall_nil_2].
  - exact (conj H1 (proj2 data_transforms_normalize "train" H1)).
  - exact (conj H2 (proj2 data_transforms_normalize "valid" H2)).
  - exact (conj H3 (proj2 data_transforms_normalize "test" H3)).
Defined.

Lemma flowers_loaded_ok :
  data_loaders flowers_fs (data_subdirs "flowers/") data_transforms
  = Ok flowers_loaded.
Proof. vm_compute. reflexivity. Defined.

(** C8. When [data_loaders] returns, it returns a loader for each of the
    three splits and for nothing else, and every loader has batch size 32 and
    shuffling on. *)
Theorem data_loaders_batch_config fs sd td loaders c2i :
  data_loaders fs sd td = Ok (loaders, c2i) →
  dom loaders = {["train"; "valid"; "test"]}
  ∧ ∀ s, s ∈ splits →
      ∃ dl, loaders !! s = Some dl ∧ batch_size dl = 32%Z ∧ shuffle dl = true.
Proof.
  intros H. split.
  - apply data_loaders_ok in H
      as (?&?&?&?&?&?&?&?&?&_&_&_&_&_&_&_&_&_&->&_).
    rewrite !dom_insert_L, dom_empty_L. set_solver.
  - intros s Hs.
    destruct (data_loaders_lookup _ _ _ _ _ s H Hs) as (?&?&d&_&_&_&Hl&_).
    by exists (loader_of d).
Qed.

Lemma data_loaders_batch_config_witness :
  dom flowers_loaded.1 = {["train"; "valid"; "test"]}
  ∧ ∀ s, s ∈ splits →
      ∃ dl, flowers_loaded.1 !! s = Some dl
            ∧ batch_size dl = 32%Z ∧ shuffle dl = true.
Proof.
  exact (data_loaders_batch_config flowers_fs (data_subdirs "flowers/")
           data_transforms flowers_loaded.1 flowers_loaded.2
           flowers_loaded_ok).
Defined.

Lemma elem_of_keys {V} (m : gmap string V) (k : string) :
  k ∈ (map_to_list m).*1 ↔ is_Some (m !! k).
Proof.
  rewrite list_elem_of_fmap. split.
  - intros ([k' v] & -> & H%elem_of_map_to_list). by exists v.
  - intros [v H]. exists (k, v). by rewrite elem_of_map_to_list.
Qed.

Lemma class_folders_lookup entries name :
  is_Some (class_folders entries !! name) ↔ entries !! name = Some true.
Proof.
  unfold class_folders, is_Some.
  setoid_rewrite map_lookup_filter_Some. simpl. split.
  - by intros (b & ? & ->).
  - intros ?. by exists true.
Qed.

Lemma find_classes_ext fs fs' p :
  scandir fs p = scandir fs' p → find_classes fs p = find_classes fs' p.
Proof. unfold find_classes. by intros ->. Qed.

(** C4. The class-to-index map that [data_loaders] returns is the one of the
    dataset built from the training directory. Its keys are exactly the names
    of the entries of that directory that are folders; its values are the
    numbers 0..k-1, each once, for k such folders. It is fixed by the listing
    of the training directory alone: another call with the same training
    directory and the same listing, whatever its other directories, pipelines
    and files, returns the same map. *)
Theorem data_loaders_class_to_idx fs sd td loaders c2i :
  data_loaders fs sd td = Ok (loaders, c2i) →
  ∃ p t d entries,
    sd !! "train" = Some p ∧ td !! "train" = Some t
    ∧ ImageFolder fs p t = Ok d ∧ c2i = class_to_idx d
    ∧ scandir fs p = Some entries
    ∧ (∀ name, name ∈ dom c2i ↔ entries !! name = Some true)
    ∧ size c2i = size (class_folders entries)
    ∧ (map_to_list c2i).*2 ≡ₚ seq 0 (size c2i)
    ∧ NoDup (map_to_list c2i).*2
    ∧ ∀ fs' sd' td' loaders' c2i',
        sd' !! "train" = Some p → scandir fs' p = Some entries →
        data_loaders fs' sd' td' = Ok (loaders', c2i') → c2i' = c2i.
Proof.
  intros H.
  destruct (data_loaders_lookup _ _ _ _ _ "train" H) as (p&t&d&Hp&Ht&Hd&_&->);
    [set_solver|].
  destruct (ImageFolder_ok _ _ _ _ Hd) as (_&_&Hfc).
  destruct (find_classes_ok _ _ _ _ Hfc) as (entries&Hscan&Hcls&Hitems).
  assert (Hkeys : (map_to_list (class_to_idx d)).*1 ≡ₚ classes d).
  { rewrite Hitems, fst_zip; [done|]. by rewrite length_seq. }
  assert (Hvals : (map_to_list (class_to_idx d)).*2
                  ≡ₚ seq 0 (length (classes d))).
  { rewrite Hitems, snd_zip; [done|]. by rewrite length_seq. }
  assert (Hsize : size (class_to_idx d) = length (classes d)).
  { rewrite <-length_map_to_list, <-(length_fmap fst), Hkeys. done. }
  exists p, t, d, entries. split_and!; [done..| | | | |].
  - intros name.
    rewrite elem_of_dom, <-elem_of_keys, Hkeys, Hcls, elem_of_keys.
    apply class_folders_lookup.
  - rewrite Hsize, Hcls, length_fmap, length_map_to_list. done.
  - by rewrite Hsize.
  - rewrite Hvals. apply NoDup_seq.
  - intros fs' sd' td' loaders' c2i' Hp' Hscan' H'.
    destruct (data_loaders_lookup _ _ _ _ _ "train" H')
      as (p'&t'&d'&Hp''&_&Hd'&_&->); [set_solver|].
    assert (p' = p) as -> by congruence.
    destruct (ImageFolder_ok _ _ _ _ Hd') as (_&_&Hfc').
    rewrite (find_classes_ext fs' fs p) in Hfc' by congruence.
    congruence.
Qed.

Lemma data_loaders_class_to_idx_witness :
  data_loaders flowers_fs (data_subdirs "flowers/") data_transforms
    = Ok flowers_loaded
  ∧ ∃ p t d entries,
      data_subdirs "flowers/" !! "train" = Some p
      ∧ data_transforms !! "train" = Some t
      ∧ ImageFolder flowers_fs p t = Ok d
      ∧ flowers_loaded.2 = class_to_idx d
      ∧ scandir flowers_fs p = Some entries
      ∧ (∀ name, name ∈ dom flowers_loaded.2 ↔ entries !! name = Some true)
      ∧ size flowers_loaded.2 = size (class_folders entries)
      ∧ (map_to_list flowers_loaded.2).*2 ≡ₚ seq 0 (size flowers_loaded.2)
      ∧ NoDup (map_to_list flowers_loaded.2).*2
      ∧ ∀ fs' sd' td' loaders' c2i',
          sd' !! "train" = Some p → scandir fs' p = Some entries →
          data_loaders fs' sd' td' = Ok (loaders', c2i') →
          c2i' = flowers_loaded.2.
Proof.
  split; [exact flowers_loaded_ok|].
  exact (data_loaders_class_to_idx flowers_fs (data_subdirs "flowers/")
           data_transforms flowers_loaded.1 flowers_loaded.2
           flowers_loaded_ok).
Defined.

Example flowers_class_to_idx :
  flowers_loaded.2 !! "daisy" = Some 0 ∧ flowers_loaded.2 !! "rose" = Some 1
  ∧ flowers_loaded.2 !! "README.txt" = None ∧ size flowers_loaded.2 = 2.
Proof. vm_compute. done. Qed.

Lemma data_loaders_split_datasets fs sd td :
  data_loaders fs sd td =
    d1 ← split_dataset fs sd td "train";
    _ ← split_dataset fs sd td "valid";
    _ ← split_dataset fs sd td "test";
    mret (<["test" := loader_of d1]> (<["valid" := loader_of d1]>
            (<["train" := loader_of d1]> ∅)), class_to_idx d1).
Proof.
  unfold data_loaders, split_dataset, getitem.
  destruct (sd !! "train"); simpl; [|done].
  destruct (td !! "train"); simpl; [|done].
  destruct (ImageFolder fs _ _); simpl; [|done].
  destruct (sd !! "valid"); simpl; [|done].
  destruct (td !! "valid"); simpl; [|done].
  destruct (ImageFolder fs _ _); simpl; [|done].
  destruct (sd !! "test"); simpl; [|done].
  destruct (td !! "test"); simpl; [|done].
  destruct (ImageFolder fs _ _); simpl; done.
Qed.

(** C10. The three datasets are built before any loader is. For the
    validation and for the test split: when the split's directory cannot be
    listed, or when [ImageFolder] raises on it for any other reason, the call
    raises; it raises that very exception when the steps before it went
    through. Yet when the call returns, the dataset of every loader is the
    training one. *)
Theorem data_loaders_eager fs sd td s p :
  s = "valid" ∨ s = "test" →
  sd !! s = Some p →
  (scandir fs p = None → ∃ e, data_loaders fs sd td = Raise e)
  ∧ (∀ t e, td !! s = Some t → ImageFolder fs p t = Raise e →
       ∃ e', data_loaders fs sd td = Raise e')
  ∧ (∀ d e, split_dataset fs sd td "train" = Ok d →
       split_dataset fs sd td "valid" = Raise e →
       data_loaders fs sd td = Raise e)
  ∧ (∀ d d' e, split_dataset fs sd td "train" = Ok d →
       split_dataset fs sd td "valid" = Ok d' →
       split_dataset fs sd td "test" = Raise e →
       data_loaders fs sd td = Raise e)
  ∧ (∀ loaders c2i, data_loaders fs sd td = Ok (loaders, c2i) →
       ∃ d, split_dataset fs sd td "train" = Ok d
            ∧ ∀ s' dl, loaders !! s' = Some dl → dataset dl = d).
Proof.
  intros Hs Hp.
  assert (Hraise : ∀ t e, td !! s = Some t → ImageFolder fs p t = Raise e →
            ∃ e', data_loaders fs sd td = Raise e').
  { intros t e Ht He.
    destruct (data_loaders fs sd td) as [[loaders c2i]|e'] eqn:H; [|by eexists].
    apply data_loaders_ok in H
      as (?&?&?&?&?&?&?&?&?&_&_&_&?&?&?&?&?&?&_&_).
    destruct Hs as [-> | ->]; congruence. }
  split_and!.
  - intros Hscan.
    destruct (td !! s) as [t|] eqn:Ht.
    { by apply (Hraise t (FileNotFoundError p)), ImageFolder_missing. }
    destruct (data_loaders fs sd td) as [[loaders c2i]|e'] eqn:H; [|by eexists].
    apply data_loaders_ok in H
      as (?&?&?&?&?&?&?&?&?&_&_&_&?&?&?&?&?&?&_&_).
    destruct Hs as [-> | ->]; congruence.
  - done.
  - intros d e H1 H2. by rewrite data_loaders_split_datasets, H1, H2.
  - intros d d' e H1 H2 H3.
    by rewrite data_loaders_split_datasets, H1, H2, H3.
  - intros loaders c2i H.
    apply data_loaders_ok in H
      as (p1&t1&d1&?&?&?&?&?&?&Hp1&Ht1&Hd1&_&_&_&_&_&_&->&_).
    exists d1. split.
    + unfold split_dataset, getitem. by rewrite Hp1, Ht1.
    + intros s' dl Hl. apply lookup_splits in Hl as Hs'. unfold splits in Hs'.
      repeat (apply elem_of_cons in Hs' as [->|Hs'];
              [by simplify_map_eq|]).
      by apply elem_of_nil in Hs'.
Qed.

Lemma data_loaders_eager_witness :
  let fs := flowers_no_valid in
  let sd := data_subdirs "flowers/" in
  let td := data_transforms in
  ("valid" = "valid" ∨ "valid" = "test")
  ∧ sd !! "valid" = Some "flowers/valid/"
  ∧ scandir fs "flowers/valid/" = None
  ∧ data_loaders fs sd td = Raise (FileNotFoundError "flowers/valid/")
  ∧ (scandir fs "flowers/valid/" = None →
       ∃ e, data_loaders fs sd td = Raise e).
Proof.
  intros fs sd td.
  split; [by left|]. split; [reflexivity|]. split; [reflexivity|].
  split; [vm_compute; reflexivity|].
  exact (proj1 (data_loaders_eager fs sd td "valid" "flowers/valid/"
                  (or_introl eq_refl) eq_refl)).
Defined.

(** ** [argparse]: what the main loop can do to the parse state *)

Local Ltac in_list :=
  repeat first
    [ assumption | apply list_elem_of_here | apply list_elem_of_further ].

Section argparse_props.
Context `{PythonNumbers}.

Lemma take_action_help action args st :
  kind action = Help → ∃ e, take_action action args st = Raise e.
Proof.
  intros Hk. unfold take_action.
  destruct (get_values action args) as [v|e]; simpl; [|by eexists].
  rewrite Hk. by eexists.
Qed.

Lemma take_action_store action args st st' :
  take_action action args st = Ok st' →
  kind action = Store
  ∧ ∃ v, get_values action args = Ok v
         ∧ namespace st' = <[dest action := v]> (namespace st)
         ∧ seen_actions st' = seen_actions st ++ [dest action]
         ∧ positionals st' = positionals st
         ∧ extras st' = extras st.
Proof.
  unfold take_action.
  destruct (get_values action args) as [v|e]; simpl; [|done].
  destruct (kind action); [|done].
  intros [= <-]. split; [done|]. by exists v.
Qed.

Lemma take_flags_cons action flags st st' :
  take_flags (action :: flags) st = Ok st' → kind action = Store.
Proof.
  unfold take_flags. simpl.
  destruct (take_action action [] st) as [st1|e] eqn:Ha.
  - intros _. by apply take_action_store in Ha as [? _].
  - assert (Hr : ∀ l, foldl (λ r a, st ← r; take_action a [] st)
                        (Raise e) l = Raise e)
      by (induction l; simpl; auto).
    by rewrite Hr.
Qed.

(** What [explicit_flags] returns: the action with its explicit argument
    when the action takes an argument; otherwise a bundle of flags that
    starts with the action itself. *)
Lemma explicit_flags_ok parser action o e flags last :
  explicit_flags parser action o e = Ok (flags, last) →
  (kind action = Store ∧ flags = [] ∧ last = (action, Some e))
  ∨ (kind action = Help ∧ ∃ flags', flags = action :: flags').
Proof.
  destruct e as [|c e]; simpl; unfold nargs;
    destruct (kind action) eqn:Hk; try (intros [= <- <-]; by left).
  - by destruct (is_short o).
  - destruct (is_short o); [|done].
    destruct (lookup_option parser _) as [action'|]; [|done].
    destruct e as [|c' e'].
    + intros [= <- <-]. right. split; [done|]. by eexists.
    + destruct (explicit_flags parser action' _ _) as [[fl la]|]; [|done].
      simpl. intros [= <- <-]. right. split; [done|]. by eexists.
Qed.

Lemma toks_ok_tail E N t toks : toks_ok E N (t :: toks) → toks_ok E N toks.
Proof. destruct t as [s [| |[[[a|] o] [e|]]]]; simpl; tauto. Qed.

Section invariant.
Variable parser : list Action.
(** [R action args]: the calls of [take_action] that are allowed. *)
Variable R : Action → list string → Prop.
Variable Q : ParseState → Prop.
Hypothesis Q_take : ∀ action args st st',
  R action args → Q st → take_action action args st = Ok st' → Q st'.
Hypothesis Q_extra : ∀ s st, Q st → Q (add_extra s st).
Hypothesis Q_positionals : ∀ ps st, Q st → Q (set_positionals ps st).

Lemma consume_positionals_inv ps toks st st' rest :
  Forall (λ p, ∀ args, R p args) ps → Q st →
  consume_positionals ps toks st = Ok (st', rest) → Q st'.
Proof.
  revert toks st. induction ps as [|p ps IH]; intros toks st Hps HQ; simpl.
  { intros [= <- _]. auto. }
  destruct (match_positional toks) as [[args rest']|].
  - destruct (take_action p args st) as [st1|] eqn:Hp; simpl; [|done].
    apply IH; [by eapply Forall_inv_tail|].
    eapply Q_take; [|done..]. by eapply Forall_inv in Hps.
  - intros [= <- _]. auto.
Qed.

Lemma Q_extras st l :
  Q st → Q (foldl (λ st (t : string * arg_class), add_extra t.1 st) st l).
Proof. revert st. induction l; simpl; auto. Qed.

Lemma consume_inv toks st st' :
  toks_ok (λ a e, R a [e]) (λ a s, R a [s]) toks →
  Forall (λ p, ∀ args, R p args) (positionals st) → Q st →
  consume parser toks st = Ok st' → Q st'.
Proof.
  revert st.
  induction toks as [toks IH] using (induction_ltof1 _ length).
  unfold ltof in IH. intros st Hok Hps HQ.
  destruct toks as [|[s c] rest]; simpl; [by intros [= <-]|].
  assert (Hrest : toks_ok (λ a e, R a [e]) (λ a s, R a [s]) rest)
    by by eapply toks_ok_tail.
  assert (Hpos : ∀ st0, Q st0 →
    Forall (λ p, ∀ args, R p args) (positionals st0) →
    (if has_option rest then
       match positionals st0 with
       | p :: ps =>
           st1 ← take_action p [s] st0;
           consume parser rest (set_positionals ps st1)
       | [] => consume parser rest (add_extra s st0)
       end
     else
       '(st1, rest') ← consume_positionals (positionals st0)
                         ((s, c) :: rest) st0;
       mret (foldl (λ st t, add_extra t.1 st) st1 rest')) = Ok st' →
    Q st').
  { intros st0 HQ0 Hps0. destruct (has_option rest).
    - destruct (positionals st0) as [|p ps] eqn:Hp.
      + apply IH; simpl; auto. by rewrite Hp.
      + destruct (take_action p [s] st0) as [st1|] eqn:Ht; simpl; [|done].
        apply IH; simpl; [lia|done|by eapply Forall_inv_tail|].
        apply Q_positionals. eapply Q_take; [|done..].
        by eapply Forall_inv in Hps0.
    - destruct (consume_positionals _ _ _) as [[st1 rest']|] eqn:Hc;
        simpl; [|done].
      intros [= <-]. apply Q_extras.
      by eapply consume_positionals_inv. }
  assert (Hnext : ∀ action st0, Q st0 →
    Forall (λ p, ∀ args, R p args) (positionals st0) →
    match rest with
    | (s', CA) :: _ => kind action = Store → R action [s']
    | _ => True
    end →
    match nargs action, rest with
    | 0, _ => st1 ← take_action action [] st0; consume parser rest st1
    | _, (s', CA) :: rest' =>
        st1 ← take_action action [s'] st0; consume parser rest' st1
    | _, _ => usage_error
    end = Ok st' → Q st').
  { intros action st0 HQ0 Hps0 HN. unfold nargs.
    destruct (kind action) eqn:Hk.
    - destruct rest as [|[s' [| |t]] rest']; try done.
      destruct (take_action action [s'] st0) as [st1|] eqn:Ht;
        simpl; [|done].
      apply take_action_store in Ht as Hst. destruct Hst as (_&_&_&_&_&Hp&_).
      apply IH; simpl; [lia|by eapply toks_ok_tail|by rewrite Hp|].
      eapply Q_take; [|done..]. auto.
    - destruct (take_action_help action [] st0 Hk) as [e ->]. done. }
  destruct c as [| |[[[action|] o] [e|]]]; try by apply Hpos.
  - (* an option with an explicit argument *)
    destruct Hok as [HE _].
    destruct (explicit_flags parser action o e) as [[flags last]|] eqn:Hf;
      simpl; [|done].
    apply explicit_flags_ok in Hf as [(Hk&->&->)|(Hk&flags'&->)].
    + simpl.
      destruct (take_action action [e] st) as [st1|] eqn:Ht; simpl; [|done].
      apply take_action_store in Ht as Hst. destruct Hst as (_&_&_&_&_&Hp&_).
      apply IH; simpl; [lia|done|by rewrite Hp|].
      eapply Q_take; [|done..]. auto.
    + destruct (take_flags (action :: flags') st) as [st1|] eqn:Ht;
        simpl; [|done].
      apply take_flags_cons in Ht. congruence.
  - (* an option without one *)
    destruct Hok as [HN _]. by apply Hnext.
  - (* an unknown option *)
    apply IH; simpl; auto.
  - apply IH; simpl; auto.
Qed.
End invariant.

(** ** The first pass *)

Lemma lookup_option_elem parser o action :
  lookup_option parser o = Some action →
  (o, action) ∈ option_string_actions parser.
Proof.
  unfold lookup_option.
  destruct (list_find _ _) as [[i [o' a']]|] eqn:Hf; simpl; [|done].
  intros [= <-]. apply list_find_Some in Hf as (Hi & <- & _).
  by eapply list_elem_of_lookup_2.
Qed.

Lemma option_string_actions_elem parser o action :
  (o, action) ∈ option_string_actions parser →
  action ∈ parser ∧ o ∈ option_strings action.
Proof.
  unfold option_string_actions. rewrite list_elem_of_bind.
  intros (a & Ho & Ha). apply list_elem_of_fmap in Ho as (o' & [= -> ->] & ?).
  done.
Qed.

Lemma get_option_tuples_elem parser tok action o e :
  (Some action, o, e) ∈ get_option_tuples parser tok →
  (o, action) ∈ option_string_actions parser
  ∧ ∀ e', e = Some e' →
      (∃ o', split_once "=" tok = Some (o', e')) ∨ String.length o = 2.
Proof.
  unfold get_option_tuples.
  destruct tok as [|c0 [|c1 short]]; [by intros ?%elem_of_nil..|].
  assert (Hshort : (Some action, o, e) ∈ omap (λ oa : string * Action,
      if bool_decide (oa.1 = String c0 (String c1 ""))
      then Some (Some oa.2, oa.1, Some short)
      else if startswith oa.1 (String c0 (String c1 short))
      then Some (Some oa.2, oa.1, None) else None)
      (option_string_actions parser) →
    (o, action) ∈ option_string_actions parser
    ∧ ∀ e', e = Some e' →
        (∃ o', split_once "=" (String c0 (String c1 short)) = Some (o', e'))
        ∨ String.length o = 2).
  { intros ([o2 a2] & Hin & Hsome)%list_elem_of_omap. simpl in Hsome.
    case_bool_decide as Ho2.
    - injection Hsome as <- <- <-. split; [done|].
      intros e' _. right. by rewrite Ho2.
    - destruct (startswith _ _); [|done].
      injection Hsome as <- <- <-. done. }
  destruct (decide (c1 = "-"%char)) as [->|Hc1].
  - destruct (split_once "=" _) as [[p' e'']|];
      intros ([o2 a2] & Heq & Hin%list_elem_of_filter)%list_elem_of_fmap;
      simplify_eq/=.
    + split; [by destruct Hin|]. intros e' [= <-]. left. by eexists.
    + split; [by destruct Hin|]. done.
  - destruct c1 as [[] [] [] [] [] [] [] []]; try exact Hshort; done.
Qed.

(** A token that resolves to an action resolves to an action of the
    parser, under one of its option strings; an explicit argument is what
    follows the first [=], or what follows a two-character option. *)
Lemma parse_optional_Some parser tok action o e :
  parse_optional parser tok = Ok (Some (Some action, o, e)) →
  (o, action) ∈ option_string_actions parser
  ∧ ∀ e', e = Some e' →
      (∃ o', split_once "=" tok = Some (o', e')) ∨ String.length o = 2.
Proof.
  pose proof (get_option_tuples_elem parser tok action o e) as Htup.
  unfold parse_optional. destruct tok as [|c0 tail]; [done|].
  set (tuples := get_option_tuples parser (String c0 tail)) in *.
  clearbody tuples.
  generalize (negative_number (String c0 tail)),
    (contains " " (String c0 tail)). intros b1 b2.
  destruct (negb _); [done|].
  destruct (lookup_option parser (String c0 tail)) as [a|] eqn:Hl.
  { intros [= <- <- <-]. split; [by apply lookup_option_elem|done]. }
  destruct (bool_decide (tail = "")); [done|].
  assert (Hrest : match tuples with
      | [] => if b1 && negb (has_negative_number_optionals parser)
              then Ok None
              else if b2 then Ok None
              else Ok (Some (None, String c0 tail, None))
      | [tuple] => Ok (Some tuple)
      | _ :: _ :: _ => usage_error
      end = Ok (Some (Some action, o, e)) →
    (o, action) ∈ option_string_actions parser
    ∧ ∀ e', e = Some e' →
        (∃ o', split_once "=" (String c0 tail) = Some (o', e'))
        ∨ String.length o = 2).
  { destruct tuples as [|t1 [|t2 l]]; [by repeat case_match| |done].
    intros [= ->]. apply Htup, elem_of_cons. by left. }
  destruct (split_once "=" (String c0 tail)) as [[o1 e1]|] eqn:Hs;
    [|exact Hrest].
  cbn [mbind option_bind].
  destruct (lookup_option parser o1) as [a1|] eqn:Hl1; [|exact Hrest].
  intros [= <- <- <-]. split; [by apply lookup_option_elem|].
  intros e' [= <-]. left. by eexists.
Qed.

Lemma classify_after_sep parser argv toks E N :
  classify parser true argv = Ok toks → toks_ok E N toks.
Proof.
  revert toks. induction argv as [|s argv IH]; intros toks; simpl.
  { by intros [= <-]. }
  destruct (classify parser true argv) as [toks'|]; simpl; [|done].
  intros [= <-]. simpl. auto.
Qed.

(** What the tokens that come out of the first pass allow: an explicit
    argument is one of a token that resolves to the action; a token that
    follows an option is a token of the command line, and not [--]. *)
Lemma classify_toks_ok parser (E N : Action → string → Prop) argv toks :
  classify parser false argv = Ok toks →
  (∀ tok action o e,
     tok ∈ argv →
     parse_optional parser tok = Ok (Some (Some action, o, Some e)) →
     E action e) →
  (∀ tok action o s,
     tok ∈ argv → s ∈ argv → s ≠ "--" →
     parse_optional parser tok = Ok (Some (Some action, o, None)) →
     N action s) →
  toks_ok E N toks.
Proof.
  revert toks. induction argv as [|s argv IH]; intros toks; simpl.
  { by intros [= <-]. }
  case_bool_decide as Hsep.
  { destruct (classify parser true argv) as [toks'|] eqn:Hc; simpl; [|done].
    intros [= <-] _ _. simpl. by eapply classify_after_sep. }
  destruct (parse_optional parser s) as [o|] eqn:Hp; simpl; [|done].
  destruct (classify parser false argv) as [toks'|] eqn:Hc; simpl; [|done].
  intros [= <-] HE HN.
  assert (Htoks' : toks_ok E N toks').
  { apply IH; [done| |].
    - intros tok0 a0 o0 e0 Hin0 Hp0. eapply HE; [|exact Hp0]. in_list.
    - intros tok0 a0 o0 s0 Hin0 Hs0 Hne Hp0.
      eapply (HN tok0); [| |exact Hne|exact Hp0]; in_list. }
  destruct o as [[[[action|] o] [e|]]|]; simpl; try done.
  - split; [|done]. intros _. eapply HE; [|done]. in_list.
  - split; [|done].
    destruct argv as [|s' argv]; simpl in Hc; [by injection Hc as <-|].
    case_bool_decide as Hsep'.
    { destruct (classify parser true argv); simpl in Hc; [|done].
      by injection Hc as <-. }
    destruct (parse_optional parser s') as [o'|]; simpl in Hc; [|done].
    destruct (classify parser false argv); simpl in Hc; [|done].
    injection Hc as <-. destruct o'; [done|].
    intros _. eapply (HN s); [| |done|done]; in_list.
Qed.

Lemma check_actions_lookup actions seen ns ns' d :
  check_actions actions seen ns = Ok ns' →
  Forall (λ a, dest a = d → ∀ s, default a ≠ Some (VStr s)) actions →
  ns' !! d = ns !! d.
Proof.
  revert ns. induction actions as [|a actions IH]; intros ns; simpl.
  { by intros [= <-]. }
  intros Hc Hd. apply Forall_cons in Hd as [Ha Hd].
  case_bool_decide; [by apply IH|].
  destruct (required a).
  { by destruct (check_actions actions seen ns). }
  destruct (default a) as [[| | | |s|]|] eqn:Hdef; try by apply IH.
  destruct (ns !! dest a) as [[| | | |s'|]|] eqn:Hns; try by apply IH.
  case_bool_decide; [|by apply IH].
  destruct (get_value a s) as [v|]; simpl in Hc; [|done].
  rewrite (IH _ Hc Hd). apply lookup_insert_ne.
  intros Heq. by eapply Ha.
Qed.

(** ** The parser of [get_input_args] *)

Lemma input_parser_actions :
  input_parser =
    [ help_action; data_dir_action;
      store_action "--arch" "arch" Tstr (VStr "vgg11");
      store_action "--save_dir" "save_dir" Tstr VNone;
      store_action "--learning_rate" "learning_rate" Tfloat
        (VFloat (float_of_Q 0.001));
      store_action "--hidden_units" "hidden_units" Tint (VInt 512);
      store_action "--epochs" "epochs" Tint (VInt 5);
      store_action "--gpu" "gpu" Tbool (VBool true) ].
Proof. reflexivity. Qed.

Lemma input_parser_short o action :
  (o, action) ∈ option_string_actions input_parser →
  String.length o = 2 → kind action = Help.
Proof.
  rewrite input_parser_actions. unfold option_string_actions. simpl.
  intros Hin.
  repeat (apply elem_of_cons in Hin as [[= -> ->]|Hin]; [by intros ?|]).
  by apply elem_of_nil in Hin.
Qed.

Lemma input_parser_gpu action :
  action ∈ input_parser → dest action = "gpu" →
  kind action = Store ∧ type action = Tbool.
Proof.
  rewrite input_parser_actions. intros Hin.
  repeat (apply elem_of_cons in Hin as [->|Hin]; [by intros ?|]).
  by apply elem_of_nil in Hin.
Qed.

Lemma input_parser_positionals :
  get_positional_actions input_parser = [data_dir_action].
Proof. reflexivity. Qed.

Lemma parse_args_ok parser argv ns :
  parse_args parser argv = Ok ns →
  ∃ toks st,
    classify parser false argv = Ok toks
    ∧ consume parser toks
        {| namespace := initial_namespace parser; seen_actions := [];
           positionals := get_positional_actions parser; extras := [] |}
      = Ok st
    ∧ check_actions parser (seen_actions st) (namespace st) = Ok ns
    ∧ extras st = [].
Proof.
  unfold parse_args.
  destruct (classify parser false argv) as [toks|]; [|done].
  cbn [mbind result_bind].
  destruct (consume parser toks _) as [st|] eqn:Hl; [|done].
  cbn [mbind result_bind].
  destruct (check_actions parser _ _) as [ns'|] eqn:Hk; [|done].
  cbn [mbind result_bind].
  destruct (extras st) eqn:He; [|done].
  intros [= <-]. by exists toks, st.
Qed.

(** An attribute that no token of the command line names keeps the
    default it had before parsing. *)
Lemma get_input_args_untouched d argv ns :
  get_input_args argv = Ok ns →
  (∀ tok, tok ∈ argv → option_dest input_parser tok ≠ Some d) →
  d ≠ "data_dir" → d ≠ "arch" →
  ns !! d = initial_namespace input_parser !! d.
Proof.
  intros (toks & st & Hc & Hl & Hk & _)%parse_args_ok Habsent Hd1 Hd2.
  rewrite (check_actions_lookup _ _ _ _ d Hk).
  2:{ rewrite input_parser_actions.
      repeat (apply Forall_cons; split; [by intros ?|]).
      constructor. }
  eapply (consume_inv input_parser (λ a _, dest a ≠ d)
            (λ st, namespace st !! d = initial_namespace input_parser !! d));
    [..|exact Hl]; try done.
  - intros a args st0 st1 Ha HQ (_&v&_&->&_)%take_action_store.
    by rewrite lookup_insert_ne.
  - eapply classify_toks_ok; [exact Hc|..].
    + intros tok a o e Htok Hp Heq. apply (Habsent tok Htok).
      unfold option_dest. rewrite Hp. by rewrite Heq.
    + intros tok a o s Htok _ _ Hp Heq. apply (Habsent tok Htok).
      unfold option_dest. rewrite Hp. by rewrite Heq.
  - simpl. rewrite input_parser_positionals.
    apply Forall_cons. split; [|constructor]. by intros _ <-.
Qed.

Lemma take_action_eval action s v st :
  kind action = Store → s ≠ "--" → call_type (type action) s = Some v →
  take_action action [s] st =
    Ok {| namespace := <[dest action := v]> (namespace st);
          seen_actions := seen_actions st ++ [dest action];
          positionals := positionals st;
          extras := extras st |}.
Proof.
  intros Hk Hs Hv. unfold take_action, get_values. rewrite Hk. simpl.
  rewrite bool_decide_eq_false_2 by done.
  unfold get_value. by rewrite Hv.
Qed.

(** A command line that is a data directory alone: the call returns, with
    the directory and the defaults. *)
Lemma get_input_args_data_dir d :
  parse_optional input_parser d = Ok None → d ≠ "--" →
  ∃ ns, get_input_args [d] = Ok ns
        ∧ ns !! "data_dir" = Some (VStr d)
        ∧ ns !! "arch" = Some (VStr "vgg11")
        ∧ ns !! "save_dir" = Some VNone
        ∧ ns !! "learning_rate" = Some (VFloat (float_of_Q 0.001))
        ∧ ns !! "hidden_units" = Some (VInt 512)
        ∧ ns !! "epochs" = Some (VInt 5)
        ∧ ns !! "gpu" = Some (VBool true).
Proof.
  intros Hp Hd. unfold get_input_args, parse_args. cbn [classify].
  rewrite bool_decide_eq_false_2 by done. rewrite Hp.
  cbn [mbind result_bind mret result_ret classify].
  cbn [consume has_option existsb positionals].
  rewrite input_parser_positionals.
  cbn [consume_positionals match_positional take_seps app].
  rewrite (take_action_eval data_dir_action d (VStr d)) by done.
  eexists. split; [reflexivity|]. by vm_compute.
Qed.

(** C6. A command line that is a data directory alone parses, and its
    [hidden_units] is 512. More generally, whenever the command line parses
    and none of its tokens names the option [--hidden_units] (written out,
    abbreviated, or with [=value]), [hidden_units] is 512, and not the 4096
    of the docstring. *)
Theorem get_input_args_hidden_units_default :
  (∀ d, parse_optional input_parser d = Ok None → d ≠ "--" →
     ∃ ns, get_input_args [d] = Ok ns
           ∧ ns !! "hidden_units" = Some (VInt 512))
  ∧ (∀ argv ns,
       get_input_args argv = Ok ns →
       (∀ tok, tok ∈ argv →
          option_dest input_parser tok ≠ Some "hidden_units") →
       ns !! "hidden_units" = Some (VInt 512)
       ∧ ns !! "hidden_units" ≠ Some (VInt 4096)).
Proof.
  split.
  - intros d Hp Hd.
    destruct (get_input_args_data_dir d Hp Hd) as (ns&?&?&?&?&?&?&?&?).
    by exists ns.
  - intros argv ns Hok Habsent.
    rewrite (get_input_args_untouched "hidden_units" argv ns Hok Habsent)
      by done.
    by vm_compute.
Qed.

(** The boolean that [type=bool] makes of a token. *)
Lemma call_type_bool tok :
  call_type Tbool tok = Some (VBool (negb (bool_decide (tok = "")))).
Proof. done. Qed.

(** C5. [bool] makes [True] of every token but the empty one. The command
    line [some_dir --gpu False] parses with [gpu] true, and so does a data
    directory followed by [--gpu] and any other non-empty argument. When the
    command line parses and no token names the option [--gpu], [gpu] is
    true. When it parses and no token is empty, nor ends an [=value] form
    with an empty value or with [--], [gpu] is true, whatever is given to
    [--gpu] and however often. *)
Theorem get_input_args_gpu :
  (∀ tok, tok ≠ "" → call_type Tbool tok = Some (VBool true))
  ∧ (∃ ns, get_input_args ["some_dir"; "--gpu"; "False"] = Ok ns
           ∧ ns !! "gpu" = Some (VBool true))
  ∧ (∀ d tok,
       parse_optional input_parser d = Ok None → d ≠ "--" →
       parse_optional input_parser tok = Ok None → tok ≠ "--" →
       tok ≠ "" →
       ∃ ns, get_input_args [d; "--gpu"; tok] = Ok ns
             ∧ ns !! "gpu" = Some (VBool true))
  ∧ (∀ argv ns,
       get_input_args argv = Ok ns →
       (∀ tok, tok ∈ argv → option_dest input_parser tok ≠ Some "gpu") →
       ns !! "gpu" = Some (VBool true))
  ∧ (∀ argv ns,
       get_input_args argv = Ok ns →
       (∀ tok, tok ∈ argv →
          tok ≠ ""
          ∧ ∀ o e, split_once "=" tok = Some (o, e) → e ≠ "" ∧ e ≠ "--") →
       ns !! "gpu" = Some (VBool true)).
Proof.
  split_and!.
  - intros tok Htok. rewrite call_type_bool.
    by rewrite bool_decide_eq_false_2.
  - eexists. split; reflexivity.
  - intros d tok Hd Hd' Htok Htok' Hne.
    unfold get_input_args, parse_args. cbn [classify].
    rewrite !bool_decide_eq_false_2 by done. rewrite Hd, Htok.
    assert (Hgpu : parse_optional input_parser "--gpu"
              = Ok (Some (Some (store_action "--gpu" "gpu" Tbool
                                  (VBool true)), "--gpu", None)))
      by reflexivity.
    rewrite Hgpu.
    cbn [mbind result_bind mret result_ret classify].
    cbn [consume has_option existsb positionals snd orb].
    rewrite input_parser_positionals.
    rewrite (take_action_eval data_dir_action d (VStr d)) by done.
    cbn [mbind result_bind nargs kind store_action].
    rewrite (take_action_eval _ tok (VBool true));
      [|done..|by rewrite call_type_bool, bool_decide_eq_false_2].
    eexists. split; [reflexivity|]. by vm_compute.
  - intros argv ns Hok Habsent.
    rewrite (get_input_args_untouched "gpu" argv ns Hok Habsent) by done.
    by vm_compute.
  - intros argv ns (toks & st & Hc & Hl & Hk & _)%parse_args_ok Hargv.
    rewrite (check_actions_lookup _ _ _ _ "gpu" Hk).
    2:{ rewrite input_parser_actions.
        repeat (apply Forall_cons; split; [by intros ?|]).
        constructor. }
    eapply (consume_inv input_parser
              (λ a args, a ∈ input_parser
                 ∧ (dest a = "gpu" →
                    ∃ v, args = [v] ∧ v ≠ "" ∧ v ≠ "--"))
              (λ st, namespace st !! "gpu" = Some (VBool true)));
      [..|exact Hl]; try done.
    + intros a args st0 st1 [Ha Hargs] HQ (_&v&Hv&->&_)%take_action_store.
      destruct (decide (dest a = "gpu")) as [Hd|Hd];
        [|by rewrite lookup_insert_ne].
      rewrite Hd, lookup_insert_eq.
      destruct (Hargs Hd) as (v0 & -> & Hv0 & Hv0').
      destruct (input_parser_gpu a Ha Hd) as [Hk' Ht].
      unfold get_values in Hv. rewrite Hk' in Hv. simpl in Hv.
      rewrite bool_decide_eq_false_2 in Hv by done.
      unfold get_value in Hv. rewrite Ht, call_type_bool in Hv.
      rewrite bool_decide_eq_false_2 in Hv by done. by injection Hv as <-.
    + eapply classify_toks_ok; [exact Hc|..].
      * intros tok a o e Htok Hp.
        destruct (parse_optional_Some _ _ _ _ _ Hp) as [Hin He].
        split; [by eapply option_string_actions_elem|]. intros Hd.
        exists e. split; [done|].
        destruct (He e eq_refl) as [[o' Hs]|Hlen].
        -- by eapply Hargv.
        -- pose proof (input_parser_short _ _ Hin Hlen) as Hhelp.
           apply option_string_actions_elem in Hin as [Hin _].
           apply input_parser_gpu in Hin as [? _]; congruence.
      * intros tok a o s Htok Hs Hsep Hp.
        destruct (parse_optional_Some _ _ _ _ _ Hp) as [Hin _].
        split; [by eapply option_string_actions_elem|]. intros _.
        exists s. split_and!; [done| |done]. by apply Hargv.
    + simpl. rewrite input_parser_positionals.
      apply Forall_cons. split; [|constructor].
      intros args. split; [|done]. rewrite input_parser_actions. in_list.
Qed.

End argparse_props.

(** ** Texts and their lines *)

Lemma string_app_cons (x : ascii) (a b : string) :
  String x a +:+ b = String x (a +:+ b).
Proof. reflexivity. Qed.

Lemma string_app_assoc (a b c : string) : (a +:+ b) +:+ c = a +:+ (b +:+ c).
Proof.
  induction a as [|x a IH]; [done|]. by rewrite !string_app_cons, IH.
Qed.

Lemma contains_app c (a b : string) :
  contains c (a +:+ b) = contains c a || contains c b.
Proof.
  induction a as [|x a IH]; [done|].
  rewrite string_app_cons. cbn [contains]. by rewrite IH, orb_assoc.
Qed.

Lemma split_lines_line (line : string) :
  contains "010" line = false → split_lines line = [line].
Proof.
  induction line as [|c line IH]; [done|]. cbn [contains split_lines].
  intros [Hc Hl]%orb_false_elim. rewrite Hc. by rewrite IH.
Qed.

Lemma split_lines_app (line rest : string) :
  contains "010" line = false →
  split_lines (line +:+ nl +:+ rest) = line :: split_lines rest.
Proof.
  induction line as [|c line IH]; [done|].
  rewrite string_app_cons. cbn [contains split_lines].
  intros [Hc Hl]%orb_false_elim. rewrite Hc. by rewrite IH.
Qed.

(** The lines of the text that joins lines with newlines are those lines. *)
Lemma split_lines_concat (lines : list string) :
  lines ≠ [] → Forall (λ line, contains "010" line = false) lines →
  split_lines (String.concat nl lines) = lines.
Proof.
  induction lines as [|line [|line' lines] IH]; [done|..]; intros _ Hl.
  - apply Forall_inv in Hl. by apply split_lines_line.
  - apply Forall_cons in Hl as [Hline Hl].
    change (String.concat nl (line :: line' :: lines))
      with (line +:+ nl +:+ String.concat nl (line' :: lines)).
    rewrite split_lines_app by done. by rewrite IH.
Qed.

(** The decimal numeral of an integer has no newline. *)
Lemma pretty_N_go_no_newline (x : N) (s : string) :
  contains "010" s = false → contains "010" (pretty_N_go x s) = false.
Proof.
  revert s. induction (N.lt_wf_0 x) as [x _ IH]; intros s Hs.
  destruct (decide (x = 0%N)) as [->|Hx]; [by rewrite pretty_N_go_0|].
  rewrite pretty_N_go_step by lia. apply IH.
  - apply N.div_lt; lia.
  - cbn. rewrite Hs. unfold pretty_N_char. by repeat case_match.
Qed.

Lemma pretty_Z_no_newline (n : Z) : contains "010" (pretty n) = false.
Proof.
  assert (HN : ∀ x : N, contains "010" (pretty x) = false).
  { intros x. unfold pretty, pretty_N. case_decide; [done|].
    by apply pretty_N_go_no_newline. }
  destruct n as [|p|p]; [done|apply HN|].
  unfold pretty, pretty_Z. rewrite contains_app. cbn.
  apply (HN (Npos p)).
Qed.

Section print_props.
Context `{PythonNumbers}.

Lemma toks_ok_True toks : toks_ok (λ _ _, True) (λ _ _, True) toks.
Proof.
  induction toks as [|[s [| |[[[a|] o] [e|]]]] toks IH]; simpl; try done.
  split; [|done]. by destruct toks as [|[? []] ?].
Qed.

Lemma check_actions_is_Some actions seen ns ns' d :
  check_actions actions seen ns = Ok ns' →
  is_Some (ns !! d) → is_Some (ns' !! d).
Proof.
  revert ns. induction actions as [|a actions IH]; intros ns; simpl.
  { by intros [= <-]. }
  intros Hc Hd.
  case_bool_decide; [by eapply IH|].
  destruct (required a).
  { by destruct (check_actions actions seen ns). }
  destruct (default a) as [[| | | |s|]|] eqn:Hdef; try by eapply IH.
  destruct (ns !! dest a) as [[| | | |s'|]|] eqn:Hns; try by eapply IH.
  case_bool_decide; [|by eapply IH].
  destruct (get_value a s) as [v|]; simpl in Hc; [|done].
  eapply IH; [done|]. rewrite lookup_insert. by case_decide.
Qed.

(** A parsed configuration has every field. *)
Lemma get_input_args_fields argv ns name :
  get_input_args argv = Ok ns → name ∈ field_names → is_Some (ns !! name).
Proof.
  intros (toks & st & Hc & Hl & Hk & _)%parse_args_ok Hname.
  eapply check_actions_is_Some; [exact Hk|].
  eapply (consume_inv input_parser (λ _ _, True)
            (λ st, is_Some (namespace st !! name)));
    [..|exact Hl]; try done.
  - intros a args st0 st1 _ HQ (_&v&_&->&_)%take_action_store.
    rewrite lookup_insert. by case_decide.
  - apply toks_ok_True.
  - by apply Forall_forall.
  - simpl. unfold field_names in Hname.
    repeat (apply elem_of_cons in Hname as [->|Hname];
            [vm_compute; by eexists|]).
    by apply elem_of_nil in Hname.
Qed.

(** The text of the summary of seven values. *)
Lemma print_input_args_text ns stdout v1 v2 v3 v4 v5 v6 v7 :
  ns !! "data_dir" = Some v1 → ns !! "arch" = Some v2 →
  ns !! "save_dir" = Some v3 → ns !! "learning_rate" = Some v4 →
  ns !! "hidden_units" = Some v5 → ns !! "epochs" = Some v6 →
  ns !! "gpu" = Some v7 →
  print_input_args ns stdout =
    Ok (tt, stdout +:+
            String.concat nl (summary_lines [v1; v2; v3; v4; v5; v6; v7])).
Proof.
  intros H1 H2 H3 H4 H5 H6 H7. unfold print_input_args, getattr.
  rewrite H1, H2, H3, H4, H5, H6, H7.
  cbn [mbind result_bind mret result_ret]. unfold print. do 3 f_equal.
  unfold summary_lines, field_labels.
  cbn [zip_with app String.concat]. rewrite !string_app_assoc.
  reflexivity.
Qed.

Lemma summary_lines_no_newline values :
  Forall (λ v, contains "010" (py_str v) = false) values →
  Forall (λ line, contains "010" line = false) (summary_lines values).
Proof.
  intros Hv. unfold summary_lines. rewrite !Forall_app. split_and!.
  - by repeat constructor.
  - unfold field_labels. generalize dependent values.
    assert (Hline : ∀ label v,
      contains "010" label = false → contains "010" (py_str v) = false →
      contains "010" ("    " +:+ label +:+ " =  " +:+ py_str v +:+ " ")
      = false).
    { intros label v Hl Hv. rewrite !contains_app, Hl, Hv. done. }
    intros values Hv.
    repeat (destruct Hv as [|?v ?values ?Hv0 Hv];
            [by repeat constructor|]; cbn [zip_with];
            apply Forall_cons; split; [by apply Hline|]).
    constructor.
  - by repeat constructor.
Qed.

(** C9, as the code has it. For every parsed configuration the call
    returns nothing and appends to the output a text of eleven lines: an
    empty line, a heading, one line per field in the order of the fields,
    and two empty lines. The line of a field is four blanks, a label, [ =  ],
    the value and a blank; the label is the name of the field, except that
    the field [data_dir] is labelled [dir]. The lines are these whenever no
    value is printed with a newline in it. *)
Theorem print_input_args_summary argv ns stdout :
  get_input_args argv = Ok ns →
  ∃ data_dir arch save_dir learning_rate hidden_units epochs gpu text,
    ns !! "data_dir" = Some data_dir ∧ ns !! "arch" = Some arch
    ∧ ns !! "save_dir" = Some save_dir
    ∧ ns !! "learning_rate" = Some learning_rate
    ∧ ns !! "hidden_units" = Some hidden_units
    ∧ ns !! "epochs" = Some epochs ∧ ns !! "gpu" = Some gpu
    ∧ print_input_args ns stdout = Ok (tt, stdout +:+ text)
    ∧ (Forall (λ v, contains "010" (py_str v) = false)
         [data_dir; arch; save_dir; learning_rate; hidden_units; epochs;
          gpu] →
       split_lines text =
         [ "";
           "Command line arguments: ";
           "    dir =  " +:+ py_str data_dir +:+ " ";
           "    arch =  " +:+ py_str arch +:+ " ";
           "    save_dir =  " +:+ py_str save_dir +:+ " ";
           "    learning_rate =  " +:+ py_str learning_rate +:+ " ";
           "    hidden_units =  " +:+ py_str hidden_units +:+ " ";
           "    epochs =  " +:+ py_str epochs +:+ " ";
           "    gpu =  " +:+ py_str gpu +:+ " ";
           "";
           "" ]).
Proof.
  intros Hok.
  assert (Hf : ∀ name, name ∈ field_names → is_Some (ns !! name))
    by (intros; by eapply get_input_args_fields).
  unfold field_names in Hf.
  destruct (Hf "data_dir") as [v1 H1]; [in_list|].
  destruct (Hf "arch") as [v2 H2]; [in_list|].
  destruct (Hf "save_dir") as [v3 H3]; [in_list|].
  destruct (Hf "learning_rate") as [v4 H4]; [in_list|].
  destruct (Hf "hidden_units") as [v5 H5]; [in_list|].
  destruct (Hf "epochs") as [v6 H6]; [in_list|].
  destruct (Hf "gpu") as [v7 H7]; [in_list|].
  exists v1, v2, v3, v4, v5, v6, v7,
    (String.concat nl (summary_lines [v1; v2; v3; v4; v5; v6; v7])).
  split_and!; [done..| |].
  - by apply print_input_args_text.
  - intros Hv. rewrite split_lines_concat; [done|done|].
    by apply summary_lines_no_newline.
Qed.

End print_props.

Lemma flowers_args_ok :
  get_input_args (H := example_numbers) ["flowers/"] = Ok flowers_args.
Proof. reflexivity. Defined.

Lemma flowers_args_gpu_ok :
  get_input_args (H := example_numbers)
    ["flowers/"; "--epochs"; "3"; "--gpu"; "False"] = Ok flowers_args_gpu.
Proof. reflexivity. Defined.

Lemma print_input_args_summary_witness :
  get_input_args (H := example_numbers) ["flowers/"] = Ok flowers_args
  ∧ ∃ data_dir arch save_dir learning_rate hidden_units epochs gpu text,
      flowers_args !! "data_dir" = Some data_dir
      ∧ flowers_args !! "arch" = Some arch
      ∧ flowers_args !! "save_dir" = Some save_dir
      ∧ flowers_args !! "learning_rate" = Some learning_rate
      ∧ flowers_args !! "hidden_units" = Some hidden_units
      ∧ flowers_args !! "epochs" = Some epochs
      ∧ flowers_args !! "gpu" = Some gpu
      ∧ print_input_args flowers_args "" = Ok (tt, "" +:+ text)
      ∧ (Forall (λ v, contains "010" (py_str v) = false)
           [data_dir; arch; save_dir; learning_rate; hidden_units; epochs;
            gpu] →
         split_lines text =
           [ "";
             "Command line arguments: ";
             "    dir =  " +:+ py_str data_dir +:+ " ";
             "    arch =  " +:+ py_str arch +:+ " ";
             "    save_dir =  " +:+ py_str save_dir +:+ " ";
             "    learning_rate =  " +:+ py_str learning_rate +:+ " ";
             "    hidden_units =  " +:+ py_str hidden_units +:+ " ";
             "    epochs =  " +:+ py_str epochs +:+ " ";
             "    gpu =  " +:+ py_str gpu +:+ " ";
             "";
             "" ]).
Proof.
  split; [exact flowers_args_ok|].
  exact (print_input_args_summary ["flowers/"] flowers_args ""
           flowers_args_ok).
Defined.

Example flowers_summary_lines :
  print_input_args flowers_args "" = Ok (tt, flowers_summary)
  ∧ split_lines flowers_summary =
      [ ""; "Command line arguments: "; "    dir =  flowers/ ";
        "    arch =  vgg11 "; "    save_dir =  None ";
        "    learning_rate =  0.001 "; "    hidden_units =  512 ";
        "    epochs =  5 "; "    gpu =  True "; ""; "" ].
Proof. split; reflexivity. Qed.

(** C9, as stated, fails on the configuration parsed from the command line
    [flowers/]: no line of the summary starts with [data_dir], indentation
    aside; the line of that field starts with [dir]. *)
Lemma print_input_args_data_dir_label :
  get_input_args (H := example_numbers) ["flowers/"] = Ok flowers_args
  ∧ print_input_args flowers_args "" = Ok (tt, flowers_summary)
  ∧ ¬ names_every_field flowers_summary.
Proof.
  split; [exact flowers_args_ok|]. split; [reflexivity|].
  intros Hn. destruct (Hn "data_dir") as (line & Hin & Hpre).
  { unfold field_names. in_list. }
  vm_compute in Hin.
  repeat (apply elem_of_cons in Hin as [->|Hin]; [by vm_compute in Hpre|]).
  by apply elem_of_nil in Hin.
Qed.

Lemma get_input_args_hidden_units_default_witness :
  (∃ ns, get_input_args (H := example_numbers) ["flowers/"] = Ok ns
         ∧ ns !! "hidden_units" = Some (VInt 512))
  ∧ flowers_args_gpu !! "hidden_units" = Some (VInt 512)
  ∧ flowers_args_gpu !! "hidden_units" ≠ Some (VInt 4096).
Proof.
  split.
  - apply (proj1 (get_input_args_hidden_units_default (H := example_numbers))
             "flowers/"); [reflexivity|discriminate].
  - apply (proj2 (get_input_args_hidden_units_default (H := example_numbers))
             ["flowers/"; "--epochs"; "3"; "--gpu"; "False"]
             flowers_args_gpu flowers_args_gpu_ok).
    intros tok Hin.
    repeat (apply elem_of_cons in Hin as [->|Hin]; [by vm_compute|]).
    by apply elem_of_nil in Hin.
Defined.

Lemma get_input_args_gpu_witness :
  call_type (H := example_numbers) Tbool "False" = Some (VBool true)
  ∧ (∃ ns, get_input_args (H := example_numbers)
             ["flowers/"; "--gpu"; "0"] = Ok ns
           ∧ ns !! "gpu" = Some (VBool true))
  ∧ flowers_args !! "gpu" = Some (VBool true)
  ∧ flowers_args_gpu !! "gpu" = Some (VBool true).
Proof.
  pose proof (get_input_args_gpu (H := example_numbers))
    as (Hbool & _ & Hvalue & Habsent & Hgiven).
  split_and!.
  - apply Hbool. discriminate.
  - apply Hvalue; [reflexivity|discriminate|reflexivity|discriminate..].
  - apply (Habsent ["flowers/"] flowers_args flowers_args_ok).
    intros tok Hin.
    repeat (apply elem_of_cons in Hin as [->|Hin]; [by vm_compute|]).
    by apply elem_of_nil in Hin.
  - apply (Hgiven _ flowers_args_gpu flowers_args_gpu_ok).
    intros tok Hin.
    repeat (apply elem_of_cons in Hin as [->|Hin];
            [split; [discriminate|by vm_compute]|]).
    by apply elem_of_nil in Hin.
Defined.

(** The empty token is the one value that turns [gpu] off. *)
Example get_input_args_gpu_empty :
  ∃ ns, get_input_args (H := example_numbers) ["flowers/"; "--gpu"; ""]
        = Ok ns
        ∧ ns !! "gpu" = Some (VBool false).
Proof. eexists. split; reflexivity. Qed.


(** An explicit value [--] is dropped before [bool] sees it, and [gpu] is an
    empty list. *)
Example get_input_args_gpu_explicit_sep :
  ∃ ns, get_input_args (H := example_numbers) ["flowers/"; "--gpu=--"]
        = Ok ns
        ∧ ns !! "gpu" = Some (VList []).
Proof. eexists. split; reflexivity. Qed.

(** * Further properties of the functions *)

(** ** [data_subdirs] *)

Lemma string_length_app (a b : string) :
  String.length (a +:+ b) = String.length a + String.length b.
Proof.
  induction a as [|x a IH]; [done|].
  rewrite string_app_cons. cbn [String.length]. by rewrite IH.
Qed.

Lemma string_app_suffix_inj (a b x y : string) :
  a +:+ x = b +:+ y → String.length x = String.length y → a = b ∧ x = y.
Proof.
  revert b. induction a as [|c a IH]; intros [|c' b] Heq Hlen.
  - done.
  - apply (f_equal String.length) in Heq.
    rewrite !string_length_app in Heq. simpl in Heq. lia.
  - apply (f_equal String.length) in Heq.
    rewrite !string_length_app in Heq. simpl in Heq. lia.
  - rewrite !string_app_cons in Heq. injection Heq as -> Heq.
    destruct (IH b Heq Hlen) as [-> ->]. done.
Qed.

Lemma data_subdirs_lookup_path d k v :
  data_subdirs d !! k = Some v → v = d +:+ k +:+ "/".
Proof.
  intros Hk. apply lookup_splits in Hk as Hs. unfold splits in Hs.
  unfold data_subdirs in Hk.
  repeat (apply elem_of_cons in Hs as [->|Hs]; [by simplify_map_eq|]).
  by apply elem_of_nil in Hs.
Qed.

(** A split directory tells the root and the split: two calls give the same
    path only for the same root and the same key. In particular the three
    directories of a root are pairwise distinct, and [data_subdirs] is
    injective. *)
Theorem data_subdirs_path_inj (d d' s s' p : string) :
  data_subdirs d !! s = Some p → data_subdirs d' !! s' = Some p →
  d = d' ∧ s = s'.
Proof.
  intros Hs Hs'.
  apply data_subdirs_lookup_path in Hs as Hp.
  apply data_subdirs_lookup_path in Hs' as Hp'.
  assert (Hk : s ∈ splits) by (by eapply lookup_splits).
  assert (Hk' : s' ∈ splits) by (by eapply lookup_splits).
  rewrite Hp in Hp'. clear Hs Hs' Hp. unfold splits in Hk, Hk'.
  repeat (apply elem_of_cons in Hk as [->|Hk]);
    [| | |by apply elem_of_nil in Hk];
    (repeat (apply elem_of_cons in Hk' as [->|Hk']);
       [| | |by apply elem_of_nil in Hk']).
  - by apply string_app_suffix_inj in Hp' as [-> _]; [|reflexivity].
  - apply string_app_suffix_inj in Hp' as [_ Hx]; [|reflexivity].
    vm_compute in Hx. discriminate.
  - change (d +:+ "train" +:+ "/") with (d +:+ "t" +:+ "rain/") in Hp'.
    rewrite <-(string_app_assoc d "t" "rain/") in Hp'.
    apply string_app_suffix_inj in Hp' as [_ Hx]; [|reflexivity].
    vm_compute in Hx. discriminate.
  - apply string_app_suffix_inj in Hp' as [_ Hx]; [|reflexivity].
    vm_compute in Hx. discriminate.
  - by apply string_app_suffix_inj in Hp' as [-> _]; [|reflexivity].
  - change (d +:+ "valid" +:+ "/") with (d +:+ "v" +:+ "alid/") in Hp'.
    rewrite <-(string_app_assoc d "v" "alid/") in Hp'.
    apply string_app_suffix_inj in Hp' as [_ Hx]; [|reflexivity].
    vm_compute in Hx. discriminate.
  - change (d' +:+ "train" +:+ "/") with (d' +:+ "t" +:+ "rain/") in Hp'.
    rewrite <-(string_app_assoc d' "t" "rain/") in Hp'.
    apply string_app_suffix_inj in Hp' as [_ Hx]; [|reflexivity].
    vm_compute in Hx. discriminate.
  - change (d' +:+ "valid" +:+ "/") with (d' +:+ "v" +:+ "alid/") in Hp'.
    rewrite <-(string_app_assoc d' "v" "alid/") in Hp'.
    apply string_app_suffix_inj in Hp' as [_ Hx]; [|reflexivity].
    vm_compute in Hx. discriminate.
  - by apply string_app_suffix_inj in Hp' as [-> _]; [|reflexivity].
Qed.

Lemma data_subdirs_path_inj_witness :
  data_subdirs "flowers/" !! "valid" = Some "flowers/valid/"
  ∧ "flowers/" = "flowers/" ∧ "valid" = "valid".
Proof.
  split; [reflexivity|].
  exact (data_subdirs_path_inj "flowers/" "flowers/" "valid" "valid"
           "flowers/valid/" eq_refl eq_refl).
Defined.

(** ** [data_loaders] *)

Lemma split_dataset_KeyError fs sd td s :
  sd !! s = None ∨ td !! s = None →
  split_dataset fs sd td s = Raise (KeyError s).
Proof.
  unfold split_dataset, getitem. intros [Hs|Ht].
  - by rewrite Hs.
  - rewrite Ht. by destruct (sd !! s).
Qed.

(** [data_loaders] raises the exception of the first split, in the order
    train, valid, test, whose dataset cannot be built, and returns when all
    three can. A split that one of the two dicts lacks gives [KeyError] of the
    split's name, whatever the file system holds; so a dict without [train]
    raises [KeyError('train')] even when the other splits are missing too. *)
Theorem data_loaders_first_error fs sd td :
  (∀ e, split_dataset fs sd td "train" = Raise e →
     data_loaders fs sd td = Raise e)
  ∧ (∀ d e, split_dataset fs sd td "train" = Ok d →
       split_dataset fs sd td "valid" = Raise e →
       data_loaders fs sd td = Raise e)
  ∧ (∀ d d' e, split_dataset fs sd td "train" = Ok d →
       split_dataset fs sd td "valid" = Ok d' →
       split_dataset fs sd td "test" = Raise e →
       data_loaders fs sd td = Raise e)
  ∧ (∀ d d' d'', split_dataset fs sd td "train" = Ok d →
       split_dataset fs sd td "valid" = Ok d' →
       split_dataset fs sd td "test" = Ok d'' →
       ∃ loaders, data_loaders fs sd td = Ok (loaders, class_to_idx d))
  ∧ (sd !! "train" = None ∨ td !! "train" = None →
     data_loaders fs sd td = Raise (KeyError "train"))
  ∧ (∀ s e, s ∈ splits → (sd !! s = None ∨ td !! s = None) →
       data_loaders fs sd td = Raise e →
       e = KeyError s ∨ ∃ s', s' ∈ splits ∧ s' ≠ s
                              ∧ split_dataset fs sd td s' = Raise e).
Proof.
  rewrite data_loaders_split_datasets. split_and!.
  - by intros e ->.
  - by intros d e -> ->.
  - by intros d d' e -> -> ->.
  - intros d d' d'' -> -> ->. by eexists.
  - intros Hk. by rewrite (split_dataset_KeyError _ _ _ _ Hk).
  - intros s e Hs Hk. pose proof (split_dataset_KeyError fs _ _ _ Hk) as Hks.
    destruct (split_dataset fs sd td "train") as [d1|e1] eqn:H1; simpl.
    2:{ intros [= <-]. destruct (decide (s = "train")) as [->|];
          [left; congruence|right; exists "train"].
        split_and!; [unfold splits; in_list|done|done]. }
    destruct (split_dataset fs sd td "valid") as [d2|e2] eqn:H2; simpl.
    2:{ intros [= <-]. destruct (decide (s = "valid")) as [->|];
          [left; congruence|right; exists "valid"].
        split_and!; [unfold splits; in_list|done|done]. }
    destruct (split_dataset fs sd td "test") as [d3|e3] eqn:H3; simpl; [done|].
    intros [= <-]. destruct (decide (s = "test")) as [->|];
      [left; congruence|right; exists "test"].
    split_and!; [unfold splits; in_list|done|done].
Qed.

Lemma data_loaders_first_error_witness :
  let sd : gmap string string := delete "train" (data_subdirs "nowhere/") in
  sd !! "train" = None
  ∧ data_loaders flowers_fs sd data_transforms = Raise (KeyError "train").
Proof.
  intros sd. split; [reflexivity|].
  apply (data_loaders_first_error flowers_fs sd data_transforms).
  left. reflexivity.
Defined.



(** ** [print_input_args] *)

Section print_errors.
Context `{PythonNumbers}.

(** [print_input_args] reads the seven fields before it prints. On a
    namespace that lacks one of them it raises [AttributeError] for the first
    missing field, in the order of the fields, and prints nothing; it returns
    exactly when all seven are set, and then what it prints depends on those
    seven values only. *)
Theorem print_input_args_missing (ns : gmap string value) (stdout : string) :
  (∀ before name after,
     field_names = before ++ name :: after →
     (∀ n, n ∈ before → is_Some (ns !! n)) → ns !! name = None →
     print_input_args ns stdout = Raise (AttributeError name))
  ∧ ((∃ out, print_input_args ns stdout = Ok (tt, out)) ↔
     ∀ n, n ∈ field_names → is_Some (ns !! n))
  ∧ (∀ ns' : gmap string value,
       (∀ n, n ∈ field_names → ns' !! n = ns !! n) →
       print_input_args ns' stdout = print_input_args ns stdout).
Proof.
  split_and!.
  - intros before name after Hf Hb Hn. unfold field_names in Hf.
    unfold print_input_args, getattr.
    do 7 (destruct before as [|? before]; simpl in Hf;
      [injection Hf; intros; subst;
       repeat match goal with
         | |- context [match ns !! ?k with _ => _ end] =>
             first
               [ rewrite Hn
               | let Hx := fresh in
                 destruct (Hb k) as [? Hx]; [in_list|]; rewrite Hx;
                 cbn [mbind result_bind] ]
         end; reflexivity
      |injection Hf as <- Hf]).
    by destruct before.
  - split.
    + intros [out Hout]. unfold print_input_args, getattr in Hout.
      destruct (ns !! "data_dir") eqn:H1; [|done].
      cbn [mbind result_bind] in Hout.
      destruct (ns !! "arch") eqn:H2; [|done].
      cbn [mbind result_bind] in Hout.
      destruct (ns !! "save_dir") eqn:H3; [|done].
      cbn [mbind result_bind] in Hout.
      destruct (ns !! "learning_rate") eqn:H4; [|done].
      cbn [mbind result_bind] in Hout.
      destruct (ns !! "hidden_units") eqn:H5; [|done].
      cbn [mbind result_bind] in Hout.
      destruct (ns !! "epochs") eqn:H6; [|done].
      cbn [mbind result_bind] in Hout.
      destruct (ns !! "gpu") eqn:H7; [|done].
      intros n Hn. unfold field_names in Hn.
      repeat (apply elem_of_cons in Hn as [->|Hn]; [by eexists|]).
      by apply elem_of_nil in Hn.
    + intros Hall. unfold field_names in Hall.
      destruct (Hall "data_dir") as [v1 H1]; [in_list|].
      destruct (Hall "arch") as [v2 H2]; [in_list|].
      destruct (Hall "save_dir") as [v3 H3]; [in_list|].
      destruct (Hall "learning_rate") as [v4 H4]; [in_list|].
      destruct (Hall "hidden_units") as [v5 H5]; [in_list|].
      destruct (Hall "epochs") as [v6 H6]; [in_list|].
      destruct (Hall "gpu") as [v7 H7]; [in_list|].
      eexists. by apply print_input_args_text.
  - intros ns' Hagree. unfold print_input_args, getattr.
    unfold field_names in Hagree.
    rewrite !Hagree by in_list. done.
Qed.

End print_errors.

Lemma print_input_args_missing_witness :
  let ns : gmap string (@value example_numbers) := delete "arch" flowers_args in
  field_names = ["data_dir"] ++ "arch" :: ["save_dir"; "learning_rate";
                                           "hidden_units"; "epochs"; "gpu"]
  ∧ ns !! "arch" = None
  ∧ print_input_args ns "" = Raise (AttributeError "arch").
Proof.
  intros ns. split; [reflexivity|]. split; [reflexivity|].
  apply (proj1 (print_input_args_missing ns "") ["data_dir"] "arch"
           ["save_dir"; "learning_rate"; "hidden_units"; "epochs"; "gpu"]);
    [reflexivity| |reflexivity].
  intros n Hn. apply elem_of_cons in Hn as [->|Hn]; [by eexists|].
  by apply elem_of_nil in Hn.
Defined.

(** ** [get_input_args]: how an option is spelled *)

Lemma startswith_nil (s : string) : startswith s "" = true.
Proof. by destruct s. Qed.

Lemma startswith_app (s r p : string) :
  startswith s p = true → startswith (s +:+ r) p = true.
Proof.
  revert s. induction p as [|c p IH]; intros s.
  { intros _. apply startswith_nil. }
  destruct s as [|c' s]; [done|]. rewrite string_app_cons.
  unfold startswith in *. simpl.
  destruct (ascii_dec c c'); [apply IH|done].
Qed.

Lemma startswith_prefixes (s p : string) :
  startswith s p = true → p ∈ prefixes s.
Proof.
  unfold startswith. revert p. induction s as [|c s IH]; intros p.
  { destruct p; [intros _; apply list_elem_of_here|done]. }
  destruct p as [|c' p]; [intros _; apply list_elem_of_here|]. simpl.
  destruct (ascii_dec c' c) as [->|]; [|done]. intros Hp.
  apply list_elem_of_further, list_elem_of_fmap. exists p. auto.
Qed.

Lemma split_once_app c (s a b : string) :
  split_once c s = Some (a, b) → s = a +:+ String c b.
Proof.
  revert a. induction s as [|c' s IH]; intros a; simpl; [done|].
  case_bool_decide as Hc.
  - intros [= <- <-]. by rewrite Hc.
  - destruct (split_once c s) as [[a' b']|]; simpl; [|done].
    intros [= <- <-]. rewrite string_app_cons. by rewrite <-(IH a').
Qed.

Lemma option_prefix_startswith (tok p : string) :
  startswith (option_prefix tok) p = true → startswith tok p = true.
Proof.
  unfold option_prefix.
  destruct (split_once "=" tok) as [[a b]|] eqn:Hs; [|done].
  apply split_once_app in Hs as ->. apply startswith_app.
Qed.

Section spelling.
Context `{PythonNumbers}.

Lemma input_parser_option_strings o action :
  (o, action) ∈ option_string_actions input_parser →
  (o, dest action) ∈
    [ ("-h", SUPPRESS); ("--help", SUPPRESS); ("--arch", "arch");
      ("--save_dir", "save_dir"); ("--learning_rate", "learning_rate");
      ("--hidden_units", "hidden_units"); ("--epochs", "epochs");
      ("--gpu", "gpu") ].
Proof.
  rewrite input_parser_actions. unfold option_string_actions. simpl.
  intros Hin.
  repeat (apply elem_of_cons in Hin as [[= -> ->]|Hin]; [in_list|]).
  by apply elem_of_nil in Hin.
Qed.

Lemma option_dest_spelling tok d m :
  option_dest input_parser tok = Some d → shortest_spelling d = Some m →
  startswith tok m = true.
Proof.
  unfold option_dest.
  destruct (parse_optional input_parser tok)
    as [[[[[action|] o] e]|]|] eqn:Hp; try done.
  intros [= <-] Hm. revert Hp. unfold parse_optional.
  destruct tok as [|c0 tail]; [done|].
  destruct (negb _); [done|].
  destruct (lookup_option input_parser (String c0 tail)) as [a|] eqn:Hl.
  { intros [= <- <- <-].
    apply lookup_option_elem, input_parser_option_strings in Hl.
    repeat (apply elem_of_cons in Hl as [[Ho Hd]%pair_equal_spec|Hl];
            [rewrite Ho; rewrite Hd in Hm; vm_compute in Hm;
             by simplify_eq|]).
    by apply elem_of_nil in Hl. }
  destruct (bool_decide (tail = "")); [done|].
  assert (Hlong : ∀ p,
    (o, action) ∈ matching p → length (matching p) = 1 →
    startswith p m = true).
  { intros p [Hstart%Is_true_true Hin]%list_elem_of_filter Hone.
    simpl in Hstart.
    apply input_parser_option_strings in Hin.
    apply startswith_prefixes in Hstart.
    repeat (apply elem_of_cons in Hin as [[Ho Hd]%pair_equal_spec|Hin];
      [rewrite Ho in Hstart; rewrite Hd in Hm; vm_compute in Hm;
       try discriminate; injection Hm as <-; cbn in Hstart;
       repeat (apply elem_of_cons in Hstart as [->|Hstart];
               [first [reflexivity|by vm_compute in Hone]|]);
       by apply elem_of_nil in Hstart|]).
    by apply elem_of_nil in Hin. }
  assert (Htuples : match get_option_tuples input_parser (String c0 tail) with
      | [tuple] => tuple = (Some action, o, e)
      | _ => False
      end → startswith (String c0 tail) m = true).
  { unfold get_option_tuples. destruct tail as [|c1 short]; [done|].
    assert (Hshort : match omap (λ oa : string * Action,
        if bool_decide (oa.1 = String c0 (String c1 ""))
        then Some (Some oa.2, oa.1, Some short)
        else if startswith oa.1 (String c0 (String c1 short))
        then Some (Some oa.2, oa.1, None) else None)
        (option_string_actions input_parser) with
      | [tuple] => tuple = (Some action, o, e)
      | _ => False
      end → c1 ≠ "-"%char →
      startswith (String c0 (String c1 short)) m = true).
    { intros Hom Hc1.
      assert (Hin : (Some action, o, e) ∈ omap (λ oa : string * Action,
        if bool_decide (oa.1 = String c0 (String c1 ""))
        then Some (Some oa.2, oa.1, Some short)
        else if startswith oa.1 (String c0 (String c1 short))
        then Some (Some oa.2, oa.1, None) else None)
        (option_string_actions input_parser)).
      { destruct (omap _ _) as [|t [|??]]; try done. subst t.
        apply list_elem_of_here. }
      apply list_elem_of_omap in Hin as ([o2 a2] & Hin & Hsome).
      simpl in Hsome. apply input_parser_option_strings in Hin.
      assert (Ho2 : String.get 1 o2 = Some c1 ∧ o2 = o ∧ a2 = action).
      { case_bool_decide as Heq.
        - injection Hsome as <- <- <-. by rewrite Heq.
        - destruct (startswith o2 _) eqn:Hst; [|done].
          injection Hsome as <- <- <-. split; [|done].
          unfold startswith in Hst. destruct o2 as [|x [|y o2]]; try done.
          + simpl in Hst. by destruct (ascii_dec c0 x).
          + simpl in Hst. destruct (ascii_dec c0 x); [|done].
            destruct (ascii_dec c1 y) as [->|]; done. }
      destruct Ho2 as (Hget & -> & ->).
      repeat (apply elem_of_cons in Hin as [[Ho Hd]%pair_equal_spec|Hin];
        [rewrite Ho in Hget; rewrite Hd in Hm; vm_compute in Hm, Hget;
         by simplify_eq|]).
      by apply elem_of_nil in Hin. }
    destruct (decide (c1 = "-"%char)) as [->|Hc1].
    - intros Hg.
      set (p := option_prefix (String c0 (String "-" short))).
      assert (Hp : (o, action) ∈ matching p ∧ length (matching p) = 1).
      { revert Hg. unfold p, option_prefix, matching.
        destruct (split_once "=" _) as [[p' e']|];
          (destruct (filter _ _) as [|[o1 a1] l]; [done|]);
          (destruct l; [|done]);
          simpl; intros [= <- <- _]; (split; [apply list_elem_of_here|done]). }
      destruct Hp as [Hp1 Hp2]. apply option_prefix_startswith.
      by apply Hlong.
    - intros Hg. apply Hshort; [|done].
      destruct c1 as [[] [] [] [] [] [] [] []]; try exact Hg; done. }
  generalize (negative_number (String c0 tail)),
    (contains " " (String c0 tail)). intros b1 b2.
  set (tuples := get_option_tuples input_parser (String c0 tail)) in *.
  assert (Hrest : match tuples with
      | [] => if b1 && negb (has_negative_number_optionals input_parser)
              then Ok None
              else if b2 then Ok None
              else Ok (Some (None, String c0 tail, None))
      | [tuple] => Ok (Some tuple)
      | _ :: _ :: _ => usage_error
      end = Ok (Some (Some action, o, e)) →
    startswith (String c0 tail) m = true).
  { intros Hr. apply Htuples.
    destruct tuples as [|t1 [|t2 l]]; [by repeat case_match| |done].
    by injection Hr. }
  destruct (split_once "=" (String c0 tail)) as [[o1 e1]|] eqn:Hs;
    [|exact Hrest].
  cbn [mbind option_bind].
  destruct (lookup_option input_parser o1) as [a1|] eqn:Hl1; [|exact Hrest].
  intros [= <- <- <-].
  apply split_once_app in Hs as ->. apply startswith_app.
  apply lookup_option_elem, input_parser_option_strings in Hl1.
  repeat (apply elem_of_cons in Hl1 as [[Ho Hd]%pair_equal_spec|Hl1];
          [rewrite Ho; rewrite Hd in Hm; vm_compute in Hm;
           by simplify_eq|]).
  by apply elem_of_nil in Hl1.
Qed.

Lemma check_actions_str actions seen ns ns' d s :
  check_actions actions seen ns = Ok ns' →
  Forall (λ a, dest a = d → type a = Tstr) actions →
  ns !! d = Some (VStr s) → ns' !! d = Some (VStr s).
Proof.
  revert ns. induction actions as [|a actions IH]; intros ns; simpl.
  { by intros [= <-]. }
  intros Hc Ha Hd. apply Forall_cons in Ha as [Ha Hactions].
  case_bool_decide; [by eapply IH|].
  destruct (required a).
  { by destruct (check_actions actions seen ns). }
  destruct (default a) as [[| | | |s0|]|] eqn:Hdef; try by eapply IH.
  destruct (ns !! dest a) as [[| | | |s'|]|] eqn:Hns; try by eapply IH.
  case_bool_decide as Hs; [|by eapply IH]. subst s'.
  destruct (get_value a s0) as [v|] eqn:Hv; simpl in Hc; [|done].
  eapply IH; [done..|].
  destruct (decide (dest a = d)) as [Heq|Hne]; [|by rewrite lookup_insert_ne].
  rewrite Heq, lookup_insert_eq. rewrite Heq, Hd in Hns.
  unfold get_value in Hv. rewrite (Ha Heq) in Hv. simpl in Hv. congruence.
Qed.

(** The options keep their defaults unless they are spelled out: when the
    command line parses and no token starts with the shortest spelling of an
    option ([--a], [--s], [--l], [--hi], [--e], [--g]), the field of that
    option has its default: [vgg11], [None], 0.001, 512, 5, [True]. *)
Theorem get_input_args_defaults argv ns :
  get_input_args argv = Ok ns →
  ((∀ tok, tok ∈ argv → startswith tok "--a" = false) →
   ns !! "arch" = Some (VStr "vgg11"))
  ∧ ((∀ tok, tok ∈ argv → startswith tok "--s" = false) →
     ns !! "save_dir" = Some VNone)
  ∧ ((∀ tok, tok ∈ argv → startswith tok "--l" = false) →
     ns !! "learning_rate" = Some (VFloat (float_of_Q 0.001)))
  ∧ ((∀ tok, tok ∈ argv → startswith tok "--hi" = false) →
     ns !! "hidden_units" = Some (VInt 512))
  ∧ ((∀ tok, tok ∈ argv → startswith tok "--e" = false) →
     ns !! "epochs" = Some (VInt 5))
  ∧ ((∀ tok, tok ∈ argv → startswith tok "--g" = false) →
     ns !! "gpu" = Some (VBool true)).
Proof.
  intros Hok.
  assert (Habsent : ∀ d m, shortest_spelling d = Some m →
    (∀ tok, tok ∈ argv → startswith tok m = false) →
    ∀ tok, tok ∈ argv → option_dest input_parser tok ≠ Some d).
  { intros d m Hm Hno tok Htok Hd.
    pose proof (option_dest_spelling tok d m Hd Hm) as Hs.
    rewrite (Hno tok Htok) in Hs. done. }
  split_and!; intros Hno.
  - apply parse_args_ok in Hok as (toks & st & Hc & Hl & Hk & _).
    eapply check_actions_str; [exact Hk|..].
    { rewrite input_parser_actions.
      repeat (apply Forall_cons; split; [by intros ?|]). constructor. }
    eapply (consume_inv input_parser (λ a _, dest a ≠ "arch")
              (λ st, namespace st !! "arch" = Some (VStr "vgg11")));
      [..|exact Hl]; try done.
    + intros a args st0 st1 Ha HQ (_&v&_&->&_)%take_action_store.
      by rewrite lookup_insert_ne.
    + eapply classify_toks_ok; [exact Hc|..].
      * intros tok a o e Htok Hp Heq.
        apply (Habsent "arch" "--a" eq_refl Hno tok Htok).
        unfold option_dest. rewrite Hp. by rewrite Heq.
      * intros tok a o s Htok _ _ Hp Heq.
        apply (Habsent "arch" "--a" eq_refl Hno tok Htok).
        unfold option_dest. rewrite Hp. by rewrite Heq.
    + simpl. rewrite input_parser_positionals.
      apply Forall_cons. split; [|constructor]. by intros _.
  - by rewrite (get_input_args_untouched "save_dir" argv ns Hok
                  (Habsent "save_dir" "--s" eq_refl Hno)).
  - by rewrite (get_input_args_untouched "learning_rate" argv ns Hok
                  (Habsent "learning_rate" "--l" eq_refl Hno)).
  - by rewrite (get_input_args_untouched "hidden_units" argv ns Hok
                  (Habsent "hidden_units" "--hi" eq_refl Hno)).
  - by rewrite (get_input_args_untouched "epochs" argv ns Hok
                  (Habsent "epochs" "--e" eq_refl Hno)).
  - by rewrite (get_input_args_untouched "gpu" argv ns Hok
                  (Habsent "gpu" "--g" eq_refl Hno)).
Qed.

End spelling.

Lemma get_input_args_defaults_witness :
  get_input_args (H := example_numbers)
    ["flowers/"; "--epochs"; "3"; "--gpu"; "False"] = Ok flowers_args_gpu
  ∧ flowers_args_gpu !! "arch" = Some (VStr "vgg11")
  ∧ flowers_args_gpu !! "hidden_units" = Some (VInt 512)
  ∧ flowers_args_gpu !! "epochs" = Some (VInt 3).
Proof.
  pose proof (get_input_args_defaults (H := example_numbers) _ _
                flowers_args_gpu_ok) as (Harch & _ & _ & Hhidden & _).
  split; [exact flowers_args_gpu_ok|]. split_and!.
  - apply Harch. intros tok Hin.
    repeat (apply elem_of_cons in Hin as [->|Hin]; [reflexivity|]).
    by apply elem_of_nil in Hin.
  - apply Hhidden. intros tok Hin.
    repeat (apply elem_of_cons in Hin as [->|Hin]; [reflexivity|]).
    by apply elem_of_nil in Hin.
  - reflexivity.
Defined.

(** ** [get_input_args]: how the call ends *)

Section exits.
Context `{PythonNumbers}.

Lemma get_values_raise action args e :
  get_values action args = Raise e → e = SystemExit 2.
Proof.
  assert (Hv : ∀ s e, get_value action s = Raise e → e = SystemExit 2).
  { intros s e'. unfold get_value.
    destruct (call_type _ _); [done|]. by intros [= <-]. }
  assert (Hm : ∀ l e, VList <$> mapM (get_value action) l = Raise e →
                      e = SystemExit 2).
  { intros l. induction l as [|s l IH]; intros e'; [done|]. simpl.
    destruct (get_value action s) as [v|e1] eqn:Hs; simpl.
    - destruct (mapM (get_value action) l) as [vs|e2]; simpl; [done|].
      intros [= <-]. by apply (IH e2).
    - intros [= <-]. by eapply Hv. }
  unfold get_values. destruct (kind action).
  - destruct (remove_sep args) as [|s [|s' l]] eqn:Hr.
    + apply (Hm []).
    + apply Hv.
    + apply (Hm (s :: s' :: l)).
  - apply Hm.
Qed.

(** [take_action] ends the program in two ways: a usage error, or the help
    text. *)
Lemma take_action_raise action args st e :
  take_action action args st = Raise e →
  e = SystemExit 2 ∨ (kind action = Help ∧ e = SystemExit 0).
Proof.
  unfold take_action.
  destruct (get_values action args) as [v|e'] eqn:Hv; simpl.
  - destruct (kind action); [done|]. intros [= <-]. by right.
  - intros [= <-]. left. by eapply get_values_raise.
Qed.

Lemma parse_optional_raise parser tok e :
  parse_optional parser tok = Raise e → e = SystemExit 2.
Proof.
  unfold parse_optional, usage_error.
  repeat case_match; by intros [= <-].
Qed.

Lemma classify_raise parser b argv e :
  classify parser b argv = Raise e → e = SystemExit 2.
Proof.
  revert b. induction argv as [|s argv IH]; intros b; simpl; [done|].
  destruct b.
  { destruct (classify parser true argv) eqn:Hc; simpl; [done|].
    intros [= <-]. by eapply IH. }
  case_bool_decide.
  { destruct (classify parser true argv) eqn:Hc; simpl; [done|].
    intros [= <-]. by eapply IH. }
  destruct (parse_optional parser s) eqn:Hp; simpl.
  - destruct (classify parser false argv) eqn:Hc; simpl; [done|].
    intros [= <-]. by eapply IH.
  - intros [= <-]. by eapply parse_optional_raise.
Qed.

Lemma explicit_flags_raise parser action o ex e :
  explicit_flags parser action o ex = Raise e → e = SystemExit 2.
Proof.
  revert action o. induction ex as [|c ex IH]; intros action o; simpl.
  - unfold usage_error. repeat case_match; by intros [= <-].
  - destruct (nargs action) as [|[|?]]; [|done|].
    + destruct (is_short o); [|by intros [= <-]].
      destruct (lookup_option parser _) as [a'|]; [|by intros [= <-]].
      destruct ex as [|c' ex']; [done|].
      destruct (explicit_flags parser a' _ _) as [[fl la]|e'] eqn:He;
        simpl; [done|].
      intros [= <-]. by eapply IH.
    + destruct (is_short o); [|by intros [= <-]].
      destruct (lookup_option parser _) as [a'|]; [|by intros [= <-]].
      destruct ex as [|c' ex']; [done|].
      destruct (explicit_flags parser a' _ _) as [[fl la]|e'] eqn:He;
        simpl; [done|].
      intros [= <-]. by eapply IH.
Qed.

Lemma check_actions_raise actions seen ns e :
  check_actions actions seen ns = Raise e → e = SystemExit 2.
Proof.
  revert ns. induction actions as [|a actions IH]; intros ns; simpl; [done|].
  case_bool_decide; [apply IH|].
  destruct (required a).
  { destruct (check_actions actions seen ns) eqn:Hc; simpl.
    - by intros [= <-].
    - intros [= <-]. by eapply IH. }
  destruct (default a) as [[| | | |s|]|]; try apply IH.
  destruct (ns !! dest a) as [[| | | |s'|]|]; try apply IH.
  case_bool_decide; [|apply IH].
  unfold get_value. destruct (call_type _ _); simpl; [apply IH|].
  by intros [= <-].
Qed.

Lemma consume_positionals_raise ps toks st e :
  Forall (λ p, kind p = Store) ps →
  consume_positionals ps toks st = Raise e → e = SystemExit 2.
Proof.
  revert toks st. induction ps as [|p ps IH]; intros toks st Hps; simpl.
  { done. }
  apply Forall_cons in Hps as [Hp Hps].
  destruct (match_positional toks) as [[args rest]|]; [|done].
  destruct (take_action p args st) as [st1|e1] eqn:Ht; simpl.
  - by apply IH.
  - intros [= <-]. apply take_action_raise in Ht as [?|[? _]]; congruence.
Qed.

(** The main loop ends the program with a usage error, or with the help
    text when one of the tokens is an option that resolves to a help
    action. *)
Lemma consume_raise parser toks st e :
  Forall (λ p, kind p = Store) (positionals st) →
  consume parser toks st = Raise e →
  e = SystemExit 2
  ∨ (e = SystemExit 0
     ∧ ∃ s action o ex, (s, CO (Some action, o, ex)) ∈ toks
                        ∧ kind action = Help).
Proof.
  revert st e. induction toks as [toks IH] using (induction_ltof1 _ length).
  unfold ltof in IH. intros st e Hps.
  assert (IH' : ∀ t rest st1 e1,
    toks = t :: rest ∨ (∃ t', toks = t :: t' :: rest) →
    Forall (λ p, kind p = Store) (positionals st1) →
    consume parser rest st1 = Raise e1 →
    e1 = SystemExit 2
    ∨ (e1 = SystemExit 0
       ∧ ∃ s action o ex, (s, CO (Some action, o, ex)) ∈ toks
                          ∧ kind action = Help)).
  { intros t rest st1 e1 Htoks Hps1 Hc.
    destruct (IH rest) with (st := st1) (e := e1)
      as [?|(?&s&a&o&ex&Hin&Hk)]; [|done|done|by left|].
    { destruct Htoks as [->|[t' ->]]; simpl; lia. }
    right. split; [done|]. exists s, a, o, ex. split; [|done].
    destruct Htoks as [->|[t' ->]]; in_list. }
  destruct toks as [|[s c] rest]; simpl; [done|].
  assert (Hpos :
    (if has_option rest then
       match positionals st with
       | p :: ps =>
           st1 ← take_action p [s] st;
           consume parser rest (set_positionals ps st1)
       | [] => consume parser rest (add_extra s st)
       end
     else
       '(st1, rest') ← consume_positionals (positionals st)
                         ((s, c) :: rest) st;
       mret (foldl (λ st t, add_extra t.1 st) st1 rest')) = Raise e →
    e = SystemExit 2
    ∨ (e = SystemExit 0
       ∧ ∃ s0 action o ex, (s0, CO (Some action, o, ex)) ∈ (s, c) :: rest
                           ∧ kind action = Help)).
  { destruct (has_option rest).
    - destruct (positionals st) as [|p ps] eqn:Hp.
      + apply (IH' (s, c)); [by left|simpl; rewrite Hp; constructor].
      + apply Forall_cons in Hps as [Hpk Hps].
        destruct (take_action p [s] st) as [st1|e1] eqn:Ht; simpl.
        * apply (IH' (s, c)); [by left|done].
        * intros [= <-].
          apply take_action_raise in Ht as [?|[? _]]; [by left|congruence].
    - destruct (consume_positionals _ _ _) as [[st1 rest']|e1] eqn:Hc;
        simpl; [done|].
      intros [= <-]. left. by eapply consume_positionals_raise. }
  assert (Hnext : ∀ action o ex st0,
    Forall (λ p, kind p = Store) (positionals st0) →
    (s, CO (Some action, o, ex)) ∈ (s, c) :: rest →
    match nargs action, rest with
    | 0, _ => st1 ← take_action action [] st0; consume parser rest st1
    | _, (s', CA) :: rest' =>
        st1 ← take_action action [s'] st0; consume parser rest' st1
    | _, _ => usage_error
    end = Raise e →
    e = SystemExit 2
    ∨ (e = SystemExit 0
       ∧ ∃ s0 action o ex, (s0, CO (Some action, o, ex)) ∈ (s, c) :: rest
                           ∧ kind action = Help)).
  { intros action o ex st0 Hps0 Hin. unfold nargs.
    destruct (kind action) eqn:Hk.
    - destruct rest as [|[s' [| |t]] rest']; try by (intros [= <-]; left).
      destruct (take_action action [s'] st0) as [st1|e1] eqn:Ht; simpl.
      + apply take_action_store in Ht as Hst.
        destruct Hst as (_&_&_&_&_&Hp&_).
        apply (IH' (s, c)); [right; by eexists|by rewrite Hp].
      + intros [= <-].
        apply take_action_raise in Ht as [?|[? _]]; [by left|congruence].
    - destruct (take_action action [] st0) as [st1|e1] eqn:Ht; simpl.
      + apply take_action_store in Ht as [? _]. congruence.
      + intros [= <-]. apply take_action_raise in Ht as [?|[_ ?]]; [by left|].
        right. split; [done|]. by exists s, action, o, ex. }
  destruct c as [| |[[[action|] o] [ex|]]]; try exact Hpos.
  - destruct (explicit_flags parser action o ex) as [[flags last]|e1] eqn:Hf;
      simpl.
    2:{ intros [= <-]. left. by eapply explicit_flags_raise. }
    apply explicit_flags_ok in Hf as [(Hk&->&->)|(Hk&flags'&->)].
    + simpl.
      destruct (take_action action [ex] st) as [st1|e1] eqn:Ht; simpl.
      * apply take_action_store in Ht as Hst.
        destruct Hst as (_&_&_&_&_&Hp&_).
        apply (IH' (s, CO (Some action, o, Some ex)));
          [by left|by rewrite Hp].
      * intros [= <-].
        apply take_action_raise in Ht as [?|[? _]]; [by left|congruence].
    + unfold take_flags. simpl.
      destruct (take_action action [] st) as [st1|e1] eqn:Ht.
      { apply take_action_store in Ht as [? _]. congruence. }
      assert (Hr : ∀ l, foldl (λ r a, st ← r; take_action a [] st)
                          (Raise e1) l = Raise e1)
        by (induction l; simpl; auto).
      rewrite Hr. simpl. intros [= <-].
      apply take_action_raise in Ht as [?|[_ ?]]; [by left|].
      right. split; [done|].
      exists s, action, o, (Some ex). split; [apply list_elem_of_here|done].
  - apply (Hnext action o None); [done|apply list_elem_of_here].
  - apply (IH' (s, CO (None, o, Some ex))); [by left|done].
  - apply (IH' (s, CO (None, o, None))); [by left|done].
Qed.

(** The tokens of the first pass are the tokens of the command line, and
    each option among them is what [parse_optional] makes of its token. *)
Lemma classify_elem parser b argv toks s tuple :
  classify parser b argv = Ok toks → (s, CO tuple) ∈ toks →
  s ∈ argv ∧ parse_optional parser s = Ok (Some tuple).
Proof.
  revert b toks. induction argv as [|s0 argv IH]; intros b toks; simpl.
  { intros [= <-] Hin. by apply elem_of_nil in Hin. }
  assert (Hrec : ∀ b' toks', classify parser b' argv = Ok toks' →
    (s, CO tuple) ∈ toks' →
    s ∈ s0 :: argv ∧ parse_optional parser s = Ok (Some tuple)).
  { intros b' toks' Hc Hin. destruct (IH _ _ Hc Hin). split; [in_list|done]. }
  destruct b.
  { destruct (classify parser true argv) as [toks'|] eqn:Hc; simpl; [|done].
    intros [= <-] [[= ]|Hin]%elem_of_cons. by eapply Hrec. }
  case_bool_decide.
  { destruct (classify parser true argv) as [toks'|] eqn:Hc; simpl; [|done].
    intros [= <-] [[= ]|Hin]%elem_of_cons. by eapply Hrec. }
  destruct (parse_optional parser s0) as [o|] eqn:Hp; simpl; [|done].
  destruct (classify parser false argv) as [toks'|] eqn:Hc; simpl; [|done].
  intros [= <-] [Heq|Hin]%elem_of_cons; [|by eapply Hrec].
  destruct o as [t|]; [|done]. injection Heq as -> ->.
  split; [apply list_elem_of_here|done].
Qed.

Lemma input_parser_help action :
  action ∈ input_parser → kind action = Help → dest action = SUPPRESS.
Proof.
  rewrite input_parser_actions. intros Hin.
  repeat (apply elem_of_cons in Hin as [->|Hin]; [by intros ?|]).
  by apply elem_of_nil in Hin.
Qed.

Lemma parse_args_raise parser argv e :
  Forall (λ p, kind p = Store) (get_positional_actions parser) →
  parse_args parser argv = Raise e →
  e = SystemExit 2
  ∨ (e = SystemExit 0
     ∧ ∃ s action o ex, s ∈ argv
         ∧ parse_optional parser s = Ok (Some (Some action, o, ex))
         ∧ kind action = Help).
Proof.
  intros Hps. unfold parse_args.
  destruct (classify parser false argv) as [toks|e1] eqn:Hc;
    cbn [mbind result_bind].
  2:{ intros [= <-]. left. by eapply classify_raise. }
  destruct (consume parser toks _) as [st|e1] eqn:Hl;
    cbn [mbind result_bind].
  2:{ intros [= <-].
      apply consume_raise in Hl as [?|(?&s&a&o&ex&Hin&Hk)];
        [by left| |done].
      right. split; [done|].
      destruct (classify_elem _ _ _ _ _ _ Hc Hin) as [Hs Hp].
      by exists s, a, o, ex. }
  destruct (check_actions parser _ _) as [ns|e1] eqn:Hk;
    cbn [mbind result_bind].
  2:{ intros [= <-]. left. by eapply check_actions_raise. }
  destruct (extras st); [done|]. intros [= <-]. by left.
Qed.

(** [get_input_args] either returns a configuration or ends the program
    with [SystemExit]: with status 2 for a usage error, and with status 0
    only when a token of the command line names the help option. It raises
    nothing else. *)
Theorem get_input_args_exit argv e :
  get_input_args argv = Raise e →
  e = SystemExit 2
  ∨ (e = SystemExit 0
     ∧ ∃ tok, tok ∈ argv ∧ option_dest input_parser tok = Some SUPPRESS).
Proof.
  intros Hr. apply parse_args_raise in Hr as [?|(?&s&a&o&ex&Hs&Hp&Hk)].
  - by left.
  - right. split; [done|]. exists s. split; [done|].
    unfold option_dest. rewrite Hp. f_equal.
    apply input_parser_help; [|done].
    apply parse_optional_Some in Hp as [Hp _].
    by apply option_string_actions_elem in Hp as [? _].
  - rewrite input_parser_positionals. by repeat constructor.
Qed.

(** An option token before the separator is among the tokens of the first
    pass. *)
Lemma classify_option parser before tok after toks tuple :
  classify parser false (before ++ tok :: after) = Ok toks →
  "--" ∉ before → tok ≠ "--" →
  parse_optional parser tok = Ok (Some tuple) → (tok, CO tuple) ∈ toks.
Proof.
  revert toks. induction before as [|s before IH]; intros toks; simpl.
  - intros Hc _ Htok Hp. rewrite bool_decide_eq_false_2, Hp in Hc by done.
    cbn [mbind result_bind] in Hc.
    destruct (classify parser false after); simpl in Hc; [|done].
    injection Hc as <-. apply list_elem_of_here.
  - intros Hc Hsep Htok Hp.
    apply not_elem_of_cons in Hsep as [Hs Hsep].
    rewrite bool_decide_eq_false_2 in Hc by done.
    destruct (parse_optional parser s); simpl in Hc; [|done].
    destruct (classify parser false (before ++ tok :: after)) eqn:Hc';
      simpl in Hc; [|done].
    injection Hc as <-. apply list_elem_of_further. by apply IH.
Qed.

(** With a help option among the tokens the main loop does not return. *)
Lemma consume_help parser toks st st' s action o :
  (s, CO (Some action, o, None)) ∈ toks → kind action = Help →
  consume parser toks st ≠ Ok st'.
Proof.
  intros Hin Hk. revert st Hin.
  induction toks as [toks IH] using (induction_ltof1 _ length).
  unfold ltof in IH. intros st Hin.
  destruct toks as [|[s0 c] rest]; [by apply elem_of_nil in Hin|].
  assert (Hoption : (s0, c) ≠ (s, CO (Some action, o, None)) →
                    has_option rest = true
                    ∧ (s, CO (Some action, o, None)) ∈ rest).
  { intros Hne. apply elem_of_cons in Hin as [Heq|Hin]; [by subst|].
    split; [|done]. unfold has_option. apply existsb_exists.
    exists (s, CO (Some action, o, None)). split; [|done].
    by apply list_elem_of_In. }
  assert (Hnext : ∀ a st0,
    (kind a = Help ∨ (s, CO (Some action, o, None)) ∈ rest) →
    match nargs a, rest with
    | 0, _ => st1 ← take_action a [] st0; consume parser rest st1
    | _, (s', CA) :: rest' =>
        st1 ← take_action a [s'] st0; consume parser rest' st1
    | _, _ => usage_error
    end ≠ Ok st').
  { intros a st0 Ha. unfold nargs. destruct (kind a) eqn:Hka.
    - destruct Ha as [?|Hin']; [done|].
      destruct rest as [|[s' [| |t]] rest']; try done.
      destruct (take_action a [s'] st0) as [st1|]; simpl; [|done].
      apply IH; [simpl; lia|].
      by apply elem_of_cons in Hin' as [?|?].
    - destruct (take_action_help a [] st0 Hka) as [e ->]. done. }
  simpl. destruct c as [| |[[[a|] o'] [ex|]]].
  - destruct Hoption as [-> Hrest]; [done|].
    destruct (positionals st) as [|p ps].
    + apply IH; [simpl; lia|done].
    + destruct (take_action p [s0] st) as [st1|]; simpl; [|done].
      apply IH; [simpl; lia|done].
  - destruct Hoption as [-> Hrest]; [done|].
    destruct (positionals st) as [|p ps].
    + apply IH; [simpl; lia|done].
    + destruct (take_action p [s0] st) as [st1|]; simpl; [|done].
      apply IH; [simpl; lia|done].
  - destruct Hoption as [_ Hrest]; [done|].
    destruct (explicit_flags parser a o' ex) as [[flags last]|] eqn:Hf;
      simpl; [|done].
    apply explicit_flags_ok in Hf as [(Hka&->&->)|(Hka&flags'&->)].
    + simpl. destruct (take_action a [ex] st) as [st1|]; simpl; [|done].
      apply IH; [simpl; lia|done].
    + destruct (take_flags (a :: flags') st) as [st1|] eqn:Ht;
        simpl; [|done].
      apply take_flags_cons in Ht. congruence.
  - apply Hnext. apply elem_of_cons in Hin as [Heq|Hin]; [|by right].
    left. by simplify_eq.
  - destruct Hoption as [_ Hrest]; [done|]. apply IH; [simpl; lia|done].
  - destruct Hoption as [_ Hrest]; [done|]. apply IH; [simpl; lia|done].
Qed.

Lemma parse_args_help_first parser tok after toks action o :
  tok ≠ "--" →
  parse_optional parser tok = Ok (Some (Some action, o, None)) →
  kind action = Help → classify parser false after = Ok toks →
  parse_args parser (tok :: after) = Raise (SystemExit 0).
Proof.
  intros Htok Hp Hk Hc. unfold parse_args. cbn [classify].
  rewrite bool_decide_eq_false_2, Hp, Hc by done.
  cbn [mbind result_bind mret result_ret consume]. unfold nargs.
  rewrite Hk. unfold take_action, get_values. rewrite Hk. reflexivity.
Qed.

(** A command line with [-h] or [--help] before any [--] never yields a
    configuration: the program ends with status 0 or, when something else is
    wrong with the command line, with status 2. When the help option is the
    first token and no token is an ambiguous abbreviation, the status is 0. *)
Theorem get_input_args_help before tok after :
  tok = "-h" ∨ tok = "--help" → "--" ∉ before →
  (get_input_args (before ++ tok :: after) = Raise (SystemExit 0)
   ∨ get_input_args (before ++ tok :: after) = Raise (SystemExit 2))
  ∧ (before = [] →
     (∃ toks, classify input_parser false after = Ok toks) →
     get_input_args (tok :: after) = Raise (SystemExit 0)).
Proof.
  intros Htok Hsep.
  assert (Hp : parse_optional input_parser tok
               = Ok (Some (Some help_action, tok, None)))
    by (by destruct Htok as [-> | ->]).
  assert (Hne : tok ≠ "--") by (by destruct Htok as [-> | ->]).
  split.
  - destruct (get_input_args (before ++ tok :: after)) as [ns|e] eqn:Hr.
    + exfalso. apply parse_args_ok in Hr as (toks & st & Hc & Hl & _).
      eapply (consume_help input_parser toks _ st tok help_action tok);
        [|reflexivity|exact Hl].
      by eapply classify_option.
    + apply parse_args_raise in Hr as [->|[-> _]]; auto.
      rewrite input_parser_positionals. by repeat constructor.
  - intros -> [toks Hc].
    by eapply (parse_args_help_first input_parser tok after toks help_action).
Qed.

End exits.

Lemma get_input_args_exit_witness :
  get_input_args (H := example_numbers) ["flowers/"; "--he"]
    = Raise (SystemExit 0)
  ∧ (SystemExit 0 = SystemExit 2
     ∨ (SystemExit 0 = SystemExit 0
        ∧ ∃ tok, tok ∈ ["flowers/"; "--he"]
                 ∧ option_dest (H := example_numbers) input_parser tok
                   = Some SUPPRESS)).
Proof.
  split; [reflexivity|].
  exact (get_input_args_exit (H := example_numbers) ["flowers/"; "--he"]
           (SystemExit 0) eq_refl).
Defined.

Lemma get_input_args_help_witness :
  get_input_args (H := example_numbers)
    (["flowers/"; "--epochs"; "3"] ++ "-h" :: ["--gpu"])
  = Raise (SystemExit 0)
  ∧ get_input_args (H := example_numbers)
      (["flowers/"; "--epochs"] ++ "--help" :: ["3"])
    = Raise (SystemExit 2)
  ∧ (get_input_args (H := example_numbers)
       (["flowers/"] ++ "--help" :: [])
     = Raise (SystemExit 0)
     ∨ get_input_args (H := example_numbers)
         (["flowers/"] ++ "--help" :: [])
       = Raise (SystemExit 2)).
Proof.
  split; [reflexivity|]. split; [reflexivity|].
  apply (get_input_args_help (H := example_numbers) ["flowers/"] "--help" []).
  - by right.
  - intros Hin. apply elem_of_cons in Hin as [?|Hin]; [done|].
    by apply elem_of_nil in Hin.
Defined.

(** ** [get_input_args]: what the fields hold *)

Section typed.
Context `{PythonNumbers}.

Lemma take_seps_args toks :
  Forall (λ t : string * arg_class, t.2 = CA) toks → take_seps toks = ([], toks).
Proof. destruct 1 as [|[s c] toks Hc _]; [done|]. simpl in Hc. by subst c. Qed.

Lemma wf_toks_tail s c rest :
  wf_toks ((s, c) :: rest) → c ≠ CSep → wf_toks rest.
Proof. destruct c; simpl; [tauto|done|tauto]. Qed.

Lemma has_option_args toks :
  Forall (λ t : string * arg_class, t.2 = CA) toks → has_option toks = false.
Proof.
  induction 1 as [|[s c] toks Hc _ IH]; [done|]. simpl in *. by subst c.
Qed.

(** What a positional takes when no option follows, on well-formed tokens:
    one argument, with the separator before it or after it at most. *)
Lemma match_positional_wf toks args rest :
  wf_toks toks → match_positional toks = Some (args, rest) →
  ∃ s, remove_sep args = [s] ∧ (s, CA) ∈ toks.
Proof.
  intros Hwf. unfold match_positional.
  destruct toks as [|[s [| |t]] toks]; simpl; [done| | |done].
  - destruct Hwf as [Hs Hwf].
    destruct (take_seps toks) as [after rest'] eqn:Ha. intros [= <- <-].
    exists s. split; [|apply list_elem_of_here]. simpl.
    rewrite bool_decide_eq_false_2 by done. f_equal.
    destruct toks as [|[s2 [| |t2]] toks2]; simpl in Ha;
      try (by injection Ha as <- <-).
    destruct Hwf as [-> Hargs]. rewrite take_seps_args in Ha by done.
    by injection Ha as <- <-.
  - destruct Hwf as [-> Hargs]. rewrite take_seps_args by done.
    destruct toks as [|[s' c'] toks']; [done|].
    apply Forall_cons in Hargs as [Hc' Hargs]. simpl in Hc'. subst c'.
    rewrite take_seps_args by done. intros [= <- <-].
    exists s'. split; [done|]. in_list.
Qed.

Section invariant_wf.
Variable parser : list Action.
Variable R : Action → list string → Prop.
Variable Q : ParseState → Prop.
Variable T : string → Prop.
Hypothesis Q_take : ∀ action args st st',
  R action args → Q st → take_action action args st = Ok st' → Q st'.
Hypothesis Q_extra : ∀ s st, Q st → Q (add_extra s st).
Hypothesis Q_positionals : ∀ ps st, Q st → Q (set_positionals ps st).

(** The positionals left: none, or one that may take any argument among
    the tokens. *)
Definition one_positional (st : ParseState) : Prop :=
  positionals st = []
  ∨ ∃ p, positionals st = [p]
         ∧ ∀ args s, remove_sep args = [s] → T s → R p args.

Lemma consume_inv_wf toks st st' :
  wf_toks toks → Forall (λ t, T t.1) toks →
  toks_ok (λ a e, R a [e]) (λ a s, R a [s]) toks →
  one_positional st → Q st →
  consume parser toks st = Ok st' → Q st'.
Proof.
  revert st.
  induction toks as [toks IH] using (induction_ltof1 _ length).
  unfold ltof in IH. intros st Hwf HT Hok Hps HQ.
  destruct toks as [|[s c] rest]; simpl; [by intros [= <-]|].
  assert (Hrest : toks_ok (λ a e, R a [e]) (λ a s, R a [s]) rest)
    by by eapply toks_ok_tail.
  apply Forall_cons in HT as [Hs HT]. simpl in Hs.
  assert (Hpos : c = CA ∨ c = CSep →
    (if has_option rest then
       match positionals st with
       | p :: ps =>
           st1 ← take_action p [s] st;
           consume parser rest (set_positionals ps st1)
       | [] => consume parser rest (add_extra s st)
       end
     else
       '(st1, rest') ← consume_positionals (positionals st)
                         ((s, c) :: rest) st;
       mret (foldl (λ st t, add_extra t.1 st) st1 rest')) = Ok st' →
    Q st').
  { intros Hc. destruct (has_option rest) eqn:Hopt.
    - assert (c = CA ∧ s ≠ "--" ∧ wf_toks rest) as (-> & Hsep & Hwf').
      { destruct Hc as [-> | ->]; [by destruct Hwf|].
        destruct Hwf as [_ Hargs]. apply has_option_args in Hargs.
        congruence. }
      destruct Hps as [Hp|(p & Hp & HR)]; rewrite Hp.
      + apply IH; simpl; auto. by left.
      + destruct (take_action p [s] st) as [st1|] eqn:Ht; simpl; [|done].
        apply IH; simpl; [lia|done..|by left|].
        apply Q_positionals. eapply Q_take; [|done..].
        apply (HR [s] s); [|done]. simpl.
        by rewrite bool_decide_eq_false_2.
    - destruct Hps as [Hp|(p & Hp & HR)]; rewrite Hp; simpl.
      + intros [= <-]. apply (Q_extras Q); [done|].
        by apply Q_extra, Q_positionals.
      + destruct (match_positional ((s, c) :: rest))
          as [[args rest']|] eqn:Hm.
        * destruct (take_action p args st) as [st1|] eqn:Ht; simpl; [|done].
          intros [= <-]. apply (Q_extras Q); [done|]. apply Q_positionals.
          eapply Q_take; [|done..].
          destruct (match_positional_wf _ _ _ Hwf Hm) as (s' & Hs' & Hin).
          apply (HR args s' Hs').
          apply elem_of_cons in Hin as [[= <- _]|Hin]; [done|].
          by apply (proj1 (Forall_forall _ _) HT (s', CA)).
        * intros [= <-]. apply (Q_extras Q); [done|].
          by apply Q_extra, Q_positionals. }
  assert (Hnext : ∀ action st0, Q st0 → one_positional st0 → c ≠ CSep →
    match rest with
    | (s', CA) :: _ => kind action = Store → R action [s']
    | _ => True
    end →
    match nargs action, rest with
    | 0, _ => st1 ← take_action action [] st0; consume parser rest st1
    | _, (s', CA) :: rest' =>
        st1 ← take_action action [s'] st0; consume parser rest' st1
    | _, _ => usage_error
    end = Ok st' → Q st').
  { intros action st0 HQ0 Hps0 Hc HN. unfold nargs.
    destruct (kind action) eqn:Hk.
    - pose proof (wf_toks_tail _ _ _ Hwf Hc) as Hwf'.
      destruct rest as [|[s' [| |t]] rest']; try done.
      destruct (take_action action [s'] st0) as [st1|] eqn:Ht;
        simpl; [|done].
      apply take_action_store in Ht as Hst.
      destruct Hst as (_&_&_&_&_&Hp&_).
      apply IH; simpl; [lia|by destruct Hwf'|by eapply Forall_inv_tail
                       |by eapply toks_ok_tail| |].
      + unfold one_positional. by rewrite Hp.
      + eapply Q_take; [|done..]. auto.
    - destruct (take_action_help action [] st0 Hk) as [e ->]. done. }
  destruct c as [| |[[[action|] o] [e|]]]; try (apply Hpos; by auto).
  - destruct Hok as [HE _].
    destruct (explicit_flags parser action o e) as [[flags last]|] eqn:Hf;
      simpl; [|done].
    apply explicit_flags_ok in Hf as [(Hk&->&->)|(Hk&flags'&->)].
    + simpl.
      destruct (take_action action [e] st) as [st1|] eqn:Ht; simpl; [|done].
      apply take_action_store in Ht as Hst.
      destruct Hst as (_&_&_&_&_&Hp&_).
      apply IH; simpl; [lia|by eapply wf_toks_tail|done..| |].
      * unfold one_positional. by rewrite Hp.
      * eapply Q_take; [|done..]. auto.
    + destruct (take_flags (action :: flags') st) as [st1|] eqn:Ht;
        simpl; [|done].
      apply take_flags_cons in Ht. congruence.
  - destruct Hok as [HN _]. by apply Hnext.
  - apply IH; simpl; auto; by eapply wf_toks_tail.
  - apply IH; simpl; auto; by eapply wf_toks_tail.
Qed.
End invariant_wf.

Lemma classify_args parser argv toks :
  classify parser true argv = Ok toks →
  Forall (λ t : string * arg_class, t.2 = CA) toks.
Proof.
  revert toks. induction argv as [|s argv IH]; intros toks; simpl.
  { intros [= <-]. constructor. }
  destruct (classify parser true argv) as [toks'|]; simpl; [|done].
  intros [= <-]. constructor; [done|]. by apply IH.
Qed.

Lemma classify_wf parser argv toks :
  classify parser false argv = Ok toks → wf_toks toks.
Proof.
  revert toks. induction argv as [|s argv IH]; intros toks; simpl.
  { by intros [= <-]. }
  case_bool_decide as Hs.
  { destruct (classify parser true argv) as [toks'|] eqn:Hc; simpl; [|done].
    intros [= <-]. simpl. split; [done|]. by eapply classify_args. }
  destruct (parse_optional parser s) as [o|]; simpl; [|done].
  destruct (classify parser false argv) as [toks'|]; simpl; [|done].
  intros [= <-]. destruct o; simpl; auto.
Qed.

Lemma classify_strings parser b argv toks :
  classify parser b argv = Ok toks → Forall (λ t, t.1 ∈ argv) toks.
Proof.
  revert b toks. induction argv as [|s argv IH]; intros b toks; simpl.
  { intros [= <-]. constructor. }
  assert (Hrec : ∀ b' toks', classify parser b' argv = Ok toks' →
    Forall (λ t, t.1 ∈ s :: argv) ((s, CA) :: toks')
    ∧ ∀ c, Forall (λ t, t.1 ∈ s :: argv) ((s, c) :: toks')).
  { intros b' toks' Hc.
    assert (Forall (λ t : string * arg_class, t.1 ∈ s :: argv) toks').
    { eapply Forall_impl; [by eapply IH|]. intros; in_list. }
    split; [|intros c]; (constructor; [apply list_elem_of_here|done]). }
  destruct b.
  { destruct (classify parser true argv) as [toks'|] eqn:Hc; simpl; [|done].
    intros [= <-]. by apply (Hrec true). }
  case_bool_decide.
  { destruct (classify parser true argv) as [toks'|] eqn:Hc; simpl; [|done].
    intros [= <-]. by apply (Hrec true). }
  destruct (parse_optional parser s) as [o|]; simpl; [|done].
  destruct (classify parser false argv) as [toks'|] eqn:Hc; simpl; [|done].
  intros [= <-]. by apply (Hrec false).
Qed.

Lemma check_actions_required actions seen ns ns' action :
  check_actions actions seen ns = Ok ns' →
  action ∈ actions → required action = true → dest action ∈ seen.
Proof.
  revert ns. induction actions as [|a actions IH]; intros ns; simpl.
  { intros _ Hin. by apply elem_of_nil in Hin. }
  intros Hc [->|Hin]%elem_of_cons Hreq.
  - case_bool_decide; [done|]. rewrite Hreq in Hc.
    by destruct (check_actions actions seen ns).
  - case_bool_decide; [by eapply IH|].
    destruct (required a).
    { by destruct (check_actions actions seen ns). }
    destruct (default a) as [[| | | |s|]|]; try by eapply IH.
    destruct (ns !! dest a) as [[| | | |s'|]|]; try by eapply IH.
    case_bool_decide; [|by eapply IH].
    destruct (get_value a s); simpl in Hc; [|done]. by eapply IH.
Qed.

Lemma input_parser_data_dir action :
  action ∈ input_parser → dest action = "data_dir" →
  action = data_dir_action.
Proof.
  rewrite input_parser_actions. intros Hin.
  repeat (apply elem_of_cons in Hin as [->|Hin]; [by intros ?|]).
  by apply elem_of_nil in Hin.
Qed.

(** In a parsed configuration [data_dir] is a string, and that string is one
    of the tokens of the command line: never the default [None], never a
    list. *)
Theorem get_input_args_data_dir_token argv ns :
  get_input_args argv = Ok ns →
  ∃ d, d ∈ argv ∧ ns !! "data_dir" = Some (VStr d).
Proof.
  intros (toks & st & Hc & Hl & Hk & _)%parse_args_ok.
  rewrite (check_actions_lookup _ _ _ _ "data_dir" Hk).
  2:{ rewrite input_parser_actions.
      repeat (apply Forall_cons; split; [by intros ?|]). constructor. }
  assert (Hseen : "data_dir" ∈ seen_actions st).
  { apply (check_actions_required _ _ _ _ data_dir_action Hk); [|done].
    rewrite input_parser_actions. in_list. }
  revert Hseen.
  eapply (consume_inv_wf input_parser
            (λ a args, a ∈ input_parser
               ∧ (a = data_dir_action →
                  ∃ s, remove_sep args = [s] ∧ s ∈ argv))
            (λ st, "data_dir" ∈ seen_actions st →
               ∃ d, d ∈ argv ∧ namespace st !! "data_dir" = Some (VStr d))
            (λ s, s ∈ argv));
    [..|exact Hl]; try done.
  - intros a args st0 st1 [Ha HR] HQ (Hka&v&Hv&->&->&_)%take_action_store
      Hseen.
    destruct (decide (dest a = "data_dir")) as [Hd|Hd].
    + rewrite Hd, lookup_insert_eq.
      apply input_parser_data_dir in Ha as ->; [|done].
      destruct (HR eq_refl) as (s & Hs & Hin). exists s. split; [done|].
      unfold get_values in Hv. rewrite Hs in Hv.
      by injection Hv as <-.
    + rewrite lookup_insert_ne by done. apply HQ.
      apply elem_of_app in Hseen as [?|Hseen]; [done|].
      apply elem_of_cons in Hseen as [?|Hseen]; [done|].
      by apply elem_of_nil in Hseen.
  - by eapply classify_wf.
  - by eapply classify_strings.
  - eapply classify_toks_ok; [exact Hc|..].
    + intros tok a o e Htok Hp.
      apply parse_optional_Some in Hp as [Hp _].
      apply option_string_actions_elem in Hp as [Ha Hp].
      split; [done|]. intros ->. by apply elem_of_nil in Hp.
    + intros tok a o s Htok _ _ Hp.
      apply parse_optional_Some in Hp as [Hp _].
      apply option_string_actions_elem in Hp as [Ha Hp].
      split; [done|]. intros ->. by apply elem_of_nil in Hp.
  - right. exists data_dir_action. simpl.
    rewrite input_parser_positionals. split; [done|].
    intros args s Hs Hin. split.
    + rewrite input_parser_actions. in_list.
    + intros _. by exists s.
  - simpl. intros Hin. by apply elem_of_nil in Hin.
Qed.

Lemma input_parser_optional_fields action f t dflt :
  action ∈ input_parser → (f, t, dflt) ∈ optional_fields →
  dest action = f → kind action = Store ∧ type action = t.
Proof.
  rewrite input_parser_actions. unfold optional_fields.
  rewrite !elem_of_cons, !elem_of_nil.
  intros [->|[->|[->|[->|[->|[->|[->|[->|[]]]]]]]]];
    intros [[= -> -> ->]|[[= -> -> ->]|[[= -> -> ->]|[[= -> -> ->]
            |[[= -> -> ->]|[[= -> -> ->]|[]]]]]]]; by intros ?.
Qed.

Lemma optional_fields_not_data_dir f t dflt :
  (f, t, dflt) ∈ optional_fields → f ≠ "data_dir".
Proof.
  unfold optional_fields. intros Hf.
  repeat (apply elem_of_cons in Hf as [[= -> _ _]|Hf]; [done|]).
  by apply elem_of_nil in Hf.
Qed.

Lemma check_actions_optional_field argv ns ns' seen f t dflt :
  check_actions input_parser seen ns = Ok ns' →
  (f, t, dflt) ∈ optional_fields →
  field_from argv ns f t dflt → field_from argv ns' f t dflt.
Proof.
  intros Hk Hf.
  destruct (decide (f = "arch")) as [->|Hne].
  - assert (t = Tstr ∧ dflt = VStr "vgg11") as [-> ->].
    { revert Hf. unfold optional_fields.
      rewrite !elem_of_cons, elem_of_nil.
      intros [[= -> ->]|[[=]|[[=]|[[=]|[[=]|[[=]|[]]]]]]]. done. }
    assert (Hstr : ∀ s, ns !! "arch" = Some (VStr s) →
                        ns' !! "arch" = Some (VStr s)).
    { intros s. apply (check_actions_str _ _ _ _ _ _ Hk).
      rewrite input_parser_actions.
      repeat (apply Forall_cons; split; [by intros ?|]). constructor. }
    intros [Hd|(s & v & Hs & [= <-] & Hv)]; [left|right]; [by apply Hstr|].
    exists s, (VStr s). split_and!; [done..|by apply Hstr].
  - assert (Heq : ns' !! f = ns !! f).
    { apply (check_actions_lookup _ _ _ _ _ Hk).
      rewrite input_parser_actions.
      repeat (apply Forall_cons; split;
        [intros <-; try done; by intros ?|]).
      constructor. }
    unfold field_from. by rewrite Heq.
Qed.

(** Every optional field of a parsed configuration holds its default or
    what its callable makes of a string of the command line (a token, or
    the value of an [--option=value] token), when no token ends an
    [=value] form with [--]: a string for [arch] and [save_dir] ([None]
    when [save_dir] is not given), [float(s)] for [learning_rate], [int(s)]
    for [hidden_units] and [epochs], [bool(s)] for [gpu]. *)
Theorem get_input_args_provenance argv ns :
  get_input_args argv = Ok ns →
  (∀ tok o, tok ∈ argv → split_once "=" tok ≠ Some (o, "--")) →
  field_from argv ns "arch" Tstr (VStr "vgg11")
  ∧ field_from argv ns "save_dir" Tstr VNone
  ∧ field_from argv ns "learning_rate" Tfloat (VFloat (float_of_Q 0.001))
  ∧ field_from argv ns "hidden_units" Tint (VInt 512)
  ∧ field_from argv ns "epochs" Tint (VInt 5)
  ∧ field_from argv ns "gpu" Tbool (VBool true).
Proof.
  intros (toks & st & Hc & Hl & Hk & _)%parse_args_ok Hargv.
  assert (Hall : ∀ f t dflt, (f, t, dflt) ∈ optional_fields →
                             field_from argv ns f t dflt).
  2:{ split_and!; apply Hall; unfold optional_fields; in_list. }
  intros f t dflt Hf.
  apply (check_actions_optional_field _ _ _ _ _ _ _ Hk Hf).
  revert f t dflt Hf.
  eapply (consume_inv input_parser
            (λ a args, a ∈ input_parser
               ∧ (kind a = Store → dest a ≠ "data_dir" →
                  ∃ s, remove_sep args = [s] ∧ from_command_line argv s))
            (λ st, ∀ f t dflt, (f, t, dflt) ∈ optional_fields →
                               field_from argv (namespace st) f t dflt));
    [..|exact Hl]; try done.
  - intros a args st0 st1 [Ha HR] HQ (Hka&v&Hv&->&_)%take_action_store
      f t dflt Hf.
    destruct (decide (dest a = f)) as [Hd|Hd].
    + destruct (input_parser_optional_fields a f t dflt Ha Hf Hd) as [_ Ht].
      destruct HR as (s & Hs & Hfrom); [done|..].
      { rewrite Hd. by eapply optional_fields_not_data_dir. }
      right. exists s, v. split_and!; [done| |by rewrite Hd, lookup_insert_eq].
      unfold get_values in Hv. rewrite Hka, Hs in Hv.
      unfold get_value in Hv. rewrite Ht in Hv.
      by destruct (call_type t s); simplify_eq.
    + unfold field_from. rewrite lookup_insert_ne by done. by apply HQ.
  - eapply classify_toks_ok; [exact Hc|..].
    + intros tok a o e Htok Hp.
      destruct (parse_optional_Some _ _ _ _ _ Hp) as [Hin He].
      split; [by eapply option_string_actions_elem|]. intros Hka _.
      exists e. destruct (He e eq_refl) as [[o' Hs]|Hlen].
      * split; [|right; by exists tok, o']. simpl.
        rewrite bool_decide_eq_false_2; [done|].
        intros ->. by eapply Hargv.
      * pose proof (input_parser_short _ _ Hin Hlen). congruence.
    + intros tok a o s Htok Hs Hsep Hp.
      destruct (parse_optional_Some _ _ _ _ _ Hp) as [Hin _].
      split; [by eapply option_string_actions_elem|]. intros _ _.
      exists s. split; [|by left]. simpl.
      by rewrite bool_decide_eq_false_2.
  - simpl. rewrite input_parser_positionals.
    apply Forall_cons. split; [|constructor]. intros args. split.
    + rewrite input_parser_actions. in_list.
    + by intros _ [].
  - simpl. intros f t dflt Hf. left. revert Hf. unfold optional_fields.
    rewrite !elem_of_cons, elem_of_nil.
    intros [[= -> -> ->]|[[= -> -> ->]|[[= -> -> ->]|[[= -> -> ->]
            |[[= -> -> ->]|[[= -> -> ->]|[]]]]]]]; by vm_compute.
Qed.

End typed.

Lemma get_input_args_data_dir_token_witness :
  get_input_args (H := example_numbers)
    ["flowers/"; "--epochs"; "3"; "--gpu"; "False"] = Ok flowers_args_gpu
  ∧ ∃ d, d ∈ ["flowers/"; "--epochs"; "3"; "--gpu"; "False"]
         ∧ flowers_args_gpu !! "data_dir" = Some (VStr d).
Proof.
  split; [exact flowers_args_gpu_ok|].
  exact (get_input_args_data_dir_token (H := example_numbers) _ _
           flowers_args_gpu_ok).
Defined.

Lemma get_input_args_provenance_witness :
  get_input_args (H := example_numbers)
    ["flowers/"; "--epochs"; "3"; "--gpu"; "False"] = Ok flowers_args_gpu
  ∧ (∀ tok o, tok ∈ ["flowers/"; "--epochs"; "3"; "--gpu"; "False"] →
              split_once "=" tok ≠ Some (o, "--"))
  ∧ field_from (H := example_numbers)
      ["flowers/"; "--epochs"; "3"; "--gpu"; "False"] flowers_args_gpu
      "epochs" Tint (VInt 5)
  ∧ field_from (H := example_numbers)
      ["flowers/"; "--epochs"; "3"; "--gpu"; "False"] flowers_args_gpu
      "gpu" Tbool (VBool true).
Proof.
  assert (Hargv : ∀ tok o,
    tok ∈ ["flowers/"; "--epochs"; "3"; "--gpu"; "False"] →
    split_once "=" tok ≠ Some (o, "--")).
  { intros tok o Hin.
    repeat (apply elem_of_cons in Hin as [->|Hin]; [discriminate|]).
    by apply elem_of_nil in Hin. }
  split; [exact flowers_args_gpu_ok|]. split; [exact Hargv|].
  pose proof (get_input_args_provenance (H := example_numbers) _ _
                flowers_args_gpu_ok Hargv) as (_ & _ & _ & _ & He & Hg).
  by split.
Defined.
